(** * The chain state tracker of package protocol (protocol/protocol.go)

    A shallow embedding of [Chain]: the guarded pair (height, snapshot),
    its two writers [setState] and [setHeight], the constructor [NewChain]
    with its two background goroutines, and the waiters [BlockWaiter] and
    [BlockSoonWaiter].

    Conventions.
    - A [uint64] is a [Z]; the only arithmetic of the file, [c.Height()+slop],
      is written with its wrap-around ([add64]).
    - Every access to [c.state] happens with [c.state.cond.L] held, and no
      critical section blocks except in [cond.Wait], which gives the lock
      up.  A critical section is therefore one atomic transition, and the
      mutex has no state of its own in the model.
    - [sync.Cond] is its list of parked goroutines; a history counter
      records how many times [Broadcast] ran.
    - A buffered channel is the list of the values it holds. *)

From Stdlib Require Import ZArith Lia Bool.
From stdpp Require Import base option list strings.

Local Open Scope Z_scope.

(** ** Machine integers *)

Definition uint64_modulus : Z := 2 ^ 64.
Definition uint64_max : Z := uint64_modulus - 1.

Definition is_uint64 (z : Z) : Prop := 0 <= z <= uint64_max.

Definition uint64b (z : Z) : bool := (0 <=? z) && (z <=? uint64_max).

(** Go's [+] on [uint64]. *)
Definition add64 (a b : Z) : Z := (a + b) mod uint64_modulus.

(** ** Errors *)

(** The two errors a [context.Context] reports once it is done. *)
Inductive ctx_err : Type :=
| Canceled
| DeadlineExceeded.

Inductive error : Type :=
| ErrTheDistantFuture
| Err (e : ctx_err)
| StoreFailure (code : nat)
| Wrap (e : error) (msg : string).

(** ** The packages the tracker imports *)

Module bc.
Definition Hash : Type := Z.
Record Block : Type := mkBlock { block_hash : Hash; block_height : Z }.
Definition Block_Hash (b : Block) : Hash := block_hash b.
End bc.

Module state.
(** Modelled from the spec: package [state] is imported, not shown.  A
    snapshot is an immutable value of which the tracker reads the height
    and the identity; the empty snapshot has height zero. *)
Record Snapshot : Type := mkSnapshot { snap_id : nat; snap_height : Z }.
Definition Height (s : Snapshot) : Z := snap_height s.
Definition Empty : Snapshot := mkSnapshot 0 0.
End state.

(** The [Store] interface.  Methods that write return the new store. *)
Class Store (S : Type) : Type := {
  store_Height : S -> Z + error;
  store_GetBlock : S -> Z -> bc.Block + error;
  store_LatestSnapshot : S -> state.Snapshot + error;
  store_SaveBlock : S -> bc.Block -> S * option error;
  store_FinalizeHeight : S -> Z -> S * option error;
  store_SaveSnapshot : S -> state.Snapshot -> S * option error
}.

(** ** Channels *)

Section Channels.
Context {A : Type}.

(** [ch <- v] on a channel of capacity [cap]: [None] when it would block. *)
Definition chan_send (cap : nat) (buf : list A) (v : A) : option (list A) :=
  if (length buf <? cap)%nat then Some (buf ++ [v]) else None.

(** [<-ch]: [None] when it would block. *)
Definition chan_recv (buf : list A) : option (A * list A) :=
  match buf with
  | [] => None
  | v :: rest => Some (v, rest)
  end.
End Channels.

(** ** The Chain struct *)

(** [sync.Cond]: the goroutines parked in [Wait], and the number of
    [Broadcast] calls so far. *)
Record Cond : Type := mkCond {
  cond_parked : list nat;
  cond_broadcasts : nat
}.

Section Tracker.
Context {S : Type} `{!Store S}.

Record Chain : Type := mkChain {
  InitialBlockHash : bc.Hash;
  MaxNonceWindow : Z;
  MaxBlockWindow : Z;
  state_cond : Cond;
  state_height : Z;
  state_snapshot : state.Snapshot;
  store : S;
  lastQueuedSnapshotMS : Z;
  pendingSnapshots : list state.Snapshot
}.

Definition with_cond (k : Cond) (c : Chain) : Chain :=
  mkChain (InitialBlockHash c) (MaxNonceWindow c) (MaxBlockWindow c)
          k (state_height c) (state_snapshot c)
          (store c) (lastQueuedSnapshotMS c) (pendingSnapshots c).

Definition with_height (h : Z) (c : Chain) : Chain :=
  mkChain (InitialBlockHash c) (MaxNonceWindow c) (MaxBlockWindow c)
          (state_cond c) h (state_snapshot c)
          (store c) (lastQueuedSnapshotMS c) (pendingSnapshots c).

Definition with_snapshot (s : state.Snapshot) (c : Chain) : Chain :=
  mkChain (InitialBlockHash c) (MaxNonceWindow c) (MaxBlockWindow c)
          (state_cond c) (state_height c) s
          (store c) (lastQueuedSnapshotMS c) (pendingSnapshots c).

Definition with_store (st : S) (c : Chain) : Chain :=
  mkChain (InitialBlockHash c) (MaxNonceWindow c) (MaxBlockWindow c)
          (state_cond c) (state_height c) (state_snapshot c)
          st (lastQueuedSnapshotMS c) (pendingSnapshots c).

Definition with_pending (q : list state.Snapshot) (c : Chain) : Chain :=
  mkChain (InitialBlockHash c) (MaxNonceWindow c) (MaxBlockWindow c)
          (state_cond c) (state_height c) (state_snapshot c)
          (store c) (lastQueuedSnapshotMS c) q.

(** [c.state.cond.Broadcast()]: nobody stays parked. *)
Definition Broadcast (c : Chain) : Chain :=
  with_cond (mkCond [] (Datatypes.S (cond_broadcasts (state_cond c)))) c.

(** [c.state.cond.Wait()] called by goroutine [g]: it parks. *)
Definition Wait (g : nat) (c : Chain) : Chain :=
  with_cond (mkCond (g :: cond_parked (state_cond c))
                    (cond_broadcasts (state_cond c))) c.

Definition parked (g : nat) (c : Chain) : bool :=
  bool_decide (g ∈ cond_parked (state_cond c)).

(** [func (c *Chain) Height() uint64] *)
Definition Height (c : Chain) : Z := state_height c.

(** [func (c *Chain) State() *state.Snapshot] *)
Definition State (c : Chain) : state.Snapshot := state_snapshot c.

(** [func (c *Chain) setState(s *state.Snapshot)] *)
Definition setState (s : state.Snapshot) (c : Chain) : Chain :=
  if state.Height s <=? state.Height (state_snapshot c) then c
  else
    let c1 := with_snapshot s c in
    if state.Height s >? state_height c1
    then Broadcast (with_height (state.Height s) c1)
    else c1.

(** [func (c *Chain) setHeight(h uint64)] *)
Definition setHeight (h : Z) (c : Chain) : Chain :=
  if h <=? state_height c then c
  else Broadcast (with_height h c).

(** A call of one of the two writers. *)
Inductive update : Type :=
| SetState (s : state.Snapshot)
| SetHeight (h : Z).

Definition apply_update (u : update) (c : Chain) : Chain :=
  match u with
  | SetState s => setState s c
  | SetHeight h => setHeight h c
  end.

(** The calls of [us], first to last. *)
Definition apply_updates (us : list update) (c : Chain) : Chain :=
  fold_left (fun acc u => apply_update u acc) us c.


(** ** Goroutines *)

(** The goroutine started by [BlockWaiter]: about to take the lock, inside
    [cond.Wait] (parked, or woken and about to take the lock again), or
    returned after [ch <- struct{}{}]. *)
Inductive waiter_pc : Type :=
| WaiterLock
| WaiterWait
| WaiterDone.

Record waiter : Type := mkWaiter {
  waiter_height : Z;
  waiter_at : waiter_pc;
  waiter_ch : list unit
}.

(** The goroutine started by [BlockSoonWaiter]: at the [slop] test, in the
    [select] (on the channel of the [BlockWaiter] goroutine [inner] and on
    [ctx.Done()]), or returned. *)
Inductive soon_pc : Type :=
| SoonCheck
| SoonSelect (inner : nat)
| SoonDone.

Record soon : Type := mkSoon {
  soon_ctx : nat;
  soon_height : Z;
  soon_at : soon_pc;
  soon_ch : list (option error)
}.

Inductive goroutine : Type :=
| GoBlockWaiter (b : waiter)
| GoBlockSoonWaiter (b : soon).

(** The two cases of the [select] of [BlockSoonWaiter]. *)
Inductive select_case : Type :=
| CaseBlockWaiter
| CaseDone.

(** ** The running program *)

(** A [Chain] together with what runs around it: the contexts in use (a
    context is [None] until it is done, then [Some] of its [Err()]; a
    context that is not in the list never ends), the two goroutines of
    [NewChain] (each with its context while it runs), what [log.Error]
    received, and the waiter goroutines, named by their position. *)
Record World : Type := mkWorld {
  chain : Chain;
  contexts : list (option ctx_err);
  heights_worker : option nat;
  snapshots_worker : option nat;
  logged : list error;
  goroutines : list goroutine
}.

Definition on_chain (f : Chain -> Chain) (w : World) : World :=
  mkWorld (f (chain w)) (contexts w) (heights_worker w) (snapshots_worker w)
          (logged w) (goroutines w).

Definition with_contexts (cs : list (option ctx_err)) (w : World) : World :=
  mkWorld (chain w) cs (heights_worker w) (snapshots_worker w)
          (logged w) (goroutines w).

Definition with_heights_worker (k : option nat) (w : World) : World :=
  mkWorld (chain w) (contexts w) k (snapshots_worker w)
          (logged w) (goroutines w).

Definition with_snapshots_worker (k : option nat) (w : World) : World :=
  mkWorld (chain w) (contexts w) (heights_worker w) k
          (logged w) (goroutines w).

Definition with_logged (es : list error) (w : World) : World :=
  mkWorld (chain w) (contexts w) (heights_worker w) (snapshots_worker w)
          es (goroutines w).

Definition with_goroutines (gs : list goroutine) (w : World) : World :=
  mkWorld (chain w) (contexts w) (heights_worker w) (snapshots_worker w)
          (logged w) gs.

(** [go func() {...}()] *)
Definition spawn (g : goroutine) (w : World) : World :=
  with_goroutines (goroutines w ++ [g]) w.

Definition put (g : nat) (b : goroutine) (w : World) : World :=
  with_goroutines (<[g := b]> (goroutines w)) w.

(** [ctx.Err()] *)
Definition ctx_Err (w : World) (ctx : nat) : option ctx_err :=
  match contexts w !! ctx with
  | Some (Some e) => Some e
  | _ => None
  end.

(** [func NewChain(ctx, initialBlock, store, heights)], which returns a
    chain or an error.
    [heights] tells whether the channel is non-nil; [ctxs] are the contexts
    in use at the call. *)
Definition NewChain (ctxs : list (option ctx_err)) (ctx : nat)
    (initialBlock : bc.Block) (st : S) (heights : bool) : World + error :=
  let c := mkChain (bc.Block_Hash initialBlock) 0 0
                   (mkCond [] 0%nat) 0 state.Empty st 0 [] in
  match store_Height st with
  | inr err => inr (Wrap err "looking up blockchain height")
  | inl h =>
      inl (mkWorld (with_height h c) ctxs
                   (if heights then Some ctx else None) (Some ctx) [] [])
  end.

(** The first goroutine of [NewChain], case [h := <-heights]. *)
Definition heights_recv (h : Z) (w : World) : option World :=
  match heights_worker w with
  | Some _ => Some (on_chain (setHeight h) w)
  | None => None
  end.

(** The first goroutine of [NewChain], case [<-ctx.Done()]. *)
Definition heights_done (w : World) : option World :=
  ctx ← heights_worker w;
  _ ← ctx_Err w ctx;
  Some (with_heights_worker None w).

(** The second goroutine of [NewChain], case [s := <-c.pendingSnapshots]. *)
Definition snapshots_recv (w : World) : option World :=
  _ ← snapshots_worker w;
  '(s, rest) ← chan_recv (pendingSnapshots (chain w));
  let '(st, err) := store_SaveSnapshot (store (chain w)) s in
  let w1 := on_chain (fun c => with_store st (with_pending rest c)) w in
  Some (match err with
        | Some e => with_logged (logged w1 ++ [e]) w1
        | None => w1
        end).

(** The second goroutine of [NewChain], case [<-ctx.Done()]. *)
Definition snapshots_done (w : World) : option World :=
  ctx ← snapshots_worker w;
  _ ← ctx_Err w ctx;
  Some (with_snapshots_worker None w).

(** A send on [c.pendingSnapshots]; the senders are in other files of the
    package. *)
Definition queue_snapshot (s : state.Snapshot) (w : World) : option World :=
  q ← chan_send 1 (pendingSnapshots (chain w)) s;
  Some (on_chain (with_pending q) w).

(** [cancel()], or the deadline of [ctx] passing: the first one wins. *)
Definition cancel (ctx : nat) (e : ctx_err) (w : World) : option World :=
  match contexts w !! ctx with
  | Some None => Some (with_contexts (<[ctx := Some e]> (contexts w)) w)
  | _ => None
  end.

(** [func (c *Chain) BlockWaiter(height uint64) <-chan struct{}]: the
    channel is the one of the goroutine it starts. *)
Definition BlockWaiter (height : Z) (w : World) : World :=
  spawn (GoBlockWaiter (mkWaiter height WaiterLock [])) w.

(** One turn of the goroutine of [BlockWaiter] with the lock: the test of
    the [for], then [Wait] or the send and the return. *)
Definition run_BlockWaiter (g : nat) (b : waiter) (w : World) : option World :=
  match waiter_at b with
  | WaiterDone => None
  | WaiterLock | WaiterWait =>
      if parked g (chain w) then None
      else if state_height (chain w) <? waiter_height b
      then Some (put g (GoBlockWaiter
                          (mkWaiter (waiter_height b) WaiterWait (waiter_ch b)))
                     (on_chain (Wait g) w))
      else
        ch ← chan_send 1 (waiter_ch b) ();
        Some (put g (GoBlockWaiter (mkWaiter (waiter_height b) WaiterDone ch)) w)
  end.

Definition slop : Z := 3.

(** [func (c *Chain) BlockSoonWaiter(ctx, height) <-chan error] *)
Definition BlockSoonWaiter (ctx : nat) (height : Z) (w : World) : World :=
  spawn (GoBlockSoonWaiter (mkSoon ctx height SoonCheck [])) w.

(** The goroutine of [BlockSoonWaiter] up to the [select]: the [slop] test,
    then either the error and the return, or the call of [BlockWaiter]. *)
Definition run_BlockSoonWaiter (g : nat) (b : soon) (w : World) : option World :=
  match soon_at b with
  | SoonCheck =>
      if soon_height b >? add64 (Height (chain w)) slop
      then
        ch ← chan_send 1 (soon_ch b) (Some ErrTheDistantFuture);
        Some (put g (GoBlockSoonWaiter
                       (mkSoon (soon_ctx b) (soon_height b) SoonDone ch)) w)
      else
        let inner := length (goroutines w) in
        Some (put g (GoBlockSoonWaiter
                       (mkSoon (soon_ctx b) (soon_height b)
                               (SoonSelect inner) (soon_ch b)))
                  (BlockWaiter (soon_height b) w))
  | SoonSelect _ | SoonDone => None
  end.

(** The [select] of [BlockSoonWaiter] taking case [k]; [None] when that
    case cannot proceed. *)
Definition select_BlockSoonWaiter (g : nat) (b : soon) (k : select_case)
    (w : World) : option World :=
  match soon_at b with
  | SoonSelect inner =>
      match k with
      | CaseBlockWaiter =>
          match goroutines w !! inner with
          | Some (GoBlockWaiter i) =>
              '(_, rest) ← chan_recv (waiter_ch i);
              ch ← chan_send 1 (soon_ch b) None;
              Some (put g (GoBlockSoonWaiter
                             (mkSoon (soon_ctx b) (soon_height b) SoonDone ch))
                        (put inner (GoBlockWaiter
                                      (mkWaiter (waiter_height i) (waiter_at i) rest))
                             w))
          | _ => None
          end
      | CaseDone =>
          e ← ctx_Err w (soon_ctx b);
          ch ← chan_send 1 (soon_ch b) (Some (Err e));
          Some (put g (GoBlockSoonWaiter
                         (mkSoon (soon_ctx b) (soon_height b) SoonDone ch)) w)
      end
  | SoonCheck | SoonDone => None
  end.

(** What can happen next. *)
Inductive label : Type :=
| CallSetState (s : state.Snapshot)
| CallSetHeight (h : Z)
| HeightsRecv (h : Z)
| HeightsDone
| QueueSnapshot (s : state.Snapshot)
| SnapshotsRecv
| SnapshotsDone
| Cancel (ctx : nat) (e : ctx_err)
| CallBlockWaiter (height : Z)
| CallBlockSoonWaiter (ctx : nat) (height : Z)
| Run (g : nat)
| Select (g : nat) (k : select_case).

(** The heights a label carries are [uint64]s. *)
Definition label_ok (l : label) : bool :=
  match l with
  | CallSetState s | QueueSnapshot s => uint64b (state.Height s)
  | CallSetHeight h | HeightsRecv h => uint64b h
  | CallBlockWaiter height | CallBlockSoonWaiter _ height => uint64b height
  | HeightsDone | SnapshotsRecv | SnapshotsDone | Cancel _ _
  | Run _ | Select _ _ => true
  end.

(** One transition; [None] when [l] cannot happen in [w]. *)
Definition step (l : label) (w : World) : option World :=
  match l with
  | CallSetState s => Some (on_chain (setState s) w)
  | CallSetHeight h => Some (on_chain (setHeight h) w)
  | HeightsRecv h => heights_recv h w
  | HeightsDone => heights_done w
  | QueueSnapshot s => queue_snapshot s w
  | SnapshotsRecv => snapshots_recv w
  | SnapshotsDone => snapshots_done w
  | Cancel ctx e => cancel ctx e w
  | CallBlockWaiter height => Some (BlockWaiter height w)
  | CallBlockSoonWaiter ctx height => Some (BlockSoonWaiter ctx height w)
  | Run g =>
      match goroutines w !! g with
      | Some (GoBlockWaiter b) => run_BlockWaiter g b w
      | Some (GoBlockSoonWaiter b) => run_BlockSoonWaiter g b w
      | None => None
      end
  | Select g k =>
      match goroutines w !! g with
      | Some (GoBlockSoonWaiter b) => select_BlockSoonWaiter g b k w
      | _ => None
      end
  end.

(** The transitions of [ls], first to last. *)
Fixpoint exec (ls : list label) (w : World) : option World :=
  match ls with
  | [] => Some w
  | l :: rest =>
      if label_ok l then w' ← step l w; exec rest w' else None
  end.

(** The worlds a program can be in after [NewChain] returned a chain, given
    that [store.Height] returned a [uint64]. *)
Inductive reachable : World -> Prop :=
| reachable_NewChain ctxs ctx initialBlock st heights h w :
    store_Height st = inl h ->
    is_uint64 h ->
    NewChain ctxs ctx initialBlock st heights = inl w ->
    reachable w
| reachable_step l w w' :
    reachable w ->
    label_ok l = true ->
    step l w = Some w' ->
    reachable w'.

End Tracker.

Arguments Chain S : clear implicits.
Arguments World S : clear implicits.

(** ** What a writer does to the waiters and to the persistence slot *)

Section Effects.
Context {S : Type} `{!Store S}.

(** Between [c] and [c'] one [Broadcast] ran, and nobody is parked. *)
Definition wakes_all (c c' : Chain S) : Prop :=
  cond_broadcasts (state_cond c') = Datatypes.S (cond_broadcasts (state_cond c))
  /\ cond_parked (state_cond c') = [].

(** Between [c] and [c'] the snapshot [s] was sent on [pendingSnapshots]. *)
Definition enqueues (s : state.Snapshot) (c c' : Chain S) : Prop :=
  chan_send 1 (pendingSnapshots c) s = Some (pendingSnapshots c').

(** [setState] keeps [s]: it does not take the early return. *)
Definition accepts (s : state.Snapshot) (c : Chain S) : Prop :=
  state.Height s > state.Height (State c).

End Effects.

(** ** Invariants *)

Section Invariants.
Context {S : Type} `{!Store S}.

(** The snapshot never runs ahead of the height. *)
Definition snapshot_behind (c : Chain S) : Prop :=
  state.Height (state_snapshot c) <= state_height c.

(** The goroutine of [BlockWaiter] has run [ch <- struct{}{}]. *)
Definition signalled (b : waiter) : Prop := waiter_at b = WaiterDone.

(** A [BlockWaiter] goroutine sends once, and only after it saw its height
    reached. *)
Definition waiter_ok (w : World S) (b : waiter) : Prop :=
  is_uint64 (waiter_height b)
  /\ match waiter_at b with
     | WaiterLock | WaiterWait => waiter_ch b = []
     | WaiterDone =>
         waiter_height b <= state_height (chain w)
         /\ (length (waiter_ch b) <= 1)%nat
     end.

(** A [BlockSoonWaiter] goroutine sends once, when it returns; in its
    [select] it listens to a [BlockWaiter] goroutine for its own height. *)
Definition soon_ok (w : World S) (b : soon) : Prop :=
  is_uint64 (soon_height b)
  /\ match soon_at b with
     | SoonCheck => soon_ch b = []
     | SoonSelect inner =>
         soon_ch b = []
         /\ exists i, goroutines w !! inner = Some (GoBlockWaiter i)
                      /\ waiter_height i = soon_height b
     | SoonDone => exists r, soon_ch b = [r]
     end.

Definition goroutine_ok (w : World S) (x : goroutine) : Prop :=
  match x with
  | GoBlockWaiter b => waiter_ok w b
  | GoBlockSoonWaiter b => soon_ok w b
  end.

(** Whoever is parked is a [BlockWaiter] goroutine inside [Wait] whose
    height is still ahead. *)
Definition parked_ok (w : World S) : Prop :=
  forall g, g ∈ cond_parked (state_cond (chain w)) ->
    exists b, goroutines w !! g = Some (GoBlockWaiter b)
              /\ waiter_at b = WaiterWait
              /\ state_height (chain w) < waiter_height b.

Record world_ok (w : World S) : Prop := mk_world_ok {
  ok_height : is_uint64 (state_height (chain w));
  ok_parked : parked_ok w;
  ok_goroutines : forall g x, goroutines w !! g = Some x -> goroutine_ok w x
}.

(** A [BlockSoonWaiter] goroutine that is past the [slop] test and has not
    sent [ErrTheDistantFuture]. *)
Definition within_slop (b : soon) : Prop :=
  soon_at b <> SoonCheck /\ Some ErrTheDistantFuture ∉ soon_ch b.

(** A writer either leaves height and condition alone, or raises the height
    and wakes everybody. *)
Definition quiet_or_woken (c c' : Chain S) : Prop :=
  (state_cond c' = state_cond c /\ state_height c' = state_height c)
  \/ (cond_parked (state_cond c') = [] /\ state_height c < state_height c').

(** A goroutine stays what it is: a [BlockWaiter] goroutine for the same
    height, or a [BlockSoonWaiter] goroutine. *)
Definition same_kind (x x' : goroutine) : Prop :=
  match x, x' with
  | GoBlockWaiter b, GoBlockWaiter b' => waiter_height b' = waiter_height b
  | GoBlockSoonWaiter _, GoBlockSoonWaiter _ => True
  | _, _ => False
  end.

End Invariants.

(** ** A store in memory *)

(** What [Height] answers, the error [SaveSnapshot] fails with (if any),
    and what was saved. *)
Record MemStore : Type := mkMemStore {
  mem_height : Z + error;
  mem_failure : option error;
  mem_blocks : list bc.Block;
  mem_snapshots : list state.Snapshot
}.

#[export] Instance MemStore_Store : Store MemStore := {|
  store_Height m := mem_height m;
  store_GetBlock m h :=
    match List.find (fun b => bc.block_height b =? h) (mem_blocks m) with
    | Some b => inl b
    | None => inr (StoreFailure 404)
    end;
  store_LatestSnapshot m :=
    match mem_snapshots m with
    | s :: _ => inl s
    | [] => inl state.Empty
    end;
  store_SaveBlock m b :=
    (mkMemStore (mem_height m) (mem_failure m) (b :: mem_blocks m)
                (mem_snapshots m), None);
  store_FinalizeHeight m h := (m, None);
  store_SaveSnapshot m s :=
    match mem_failure m with
    | Some e => (m, Some e)
    | None =>
        (mkMemStore (mem_height m) None (mem_blocks m) (s :: mem_snapshots m),
         None)
    end
|}.

(** A store whose [Height] answers [h]. *)
Definition store_at (h : Z) : MemStore := mkMemStore (inl h) None [] [].

Definition genesis : bc.Block := bc.mkBlock 17 1.

(** Snapshots of heights 7, 9 and 12. *)
Definition snapshot_7 : state.Snapshot := state.mkSnapshot 70 7.
Definition snapshot_9 : state.Snapshot := state.mkSnapshot 90 9.
Definition snapshot_12 : state.Snapshot := state.mkSnapshot 120 12.

(** Where the transitions of [ls] lead from [w] ([w] itself when one of
    them cannot happen). *)
Definition after (ls : list label) (w : World MemStore) : World MemStore :=
  default w (exec ls w).

(** What [NewChain] returns over a store at height [h], with two live
    contexts, the first of which is the one of the chain. *)
Definition world_at (h : Z) : World MemStore :=
  mkWorld (mkChain 17 0 0 (mkCond [] 0%nat) h state.Empty (store_at h) 0 [])
          [None; None] (Some 0%nat) (Some 0%nat) [] [].

(** A node started at height 0 that took the snapshot of height 7, then
    learnt of height 10, and where a wait for height 12 parked. *)
Definition world_10_7 : World MemStore :=
  after [CallSetState snapshot_7; CallSetHeight 10; CallBlockWaiter 12;
         Run 0%nat]
        (world_at 0).

(** Its chain: height 10, the snapshot of height 7, goroutine 0 parked. *)
Definition chain_10_7 : Chain MemStore := chain world_10_7.

(** At height 10, a bounded wait for height 100 on the second context. *)
Definition world_soon_100 : World MemStore :=
  after [CallBlockSoonWaiter 1 100] (world_at 10).

(** At height 10, a bounded wait for height 12 on the second context. *)
Definition world_soon_12 : World MemStore :=
  after [CallBlockSoonWaiter 1 12] (world_at 10).

(** A wait for height 15 that parked at height 10, then height 15 arrives. *)
Definition world_wake_15 : World MemStore :=
  after [CallBlockWaiter 15; Run 0%nat; CallSetHeight 15] (world_at 10).

(** ** What a sequence of calls amounts to *)

(** The height a call of a writer brings. *)
Definition update_height (u : update) : Z :=
  match u with
  | SetState s => state.Height s
  | SetHeight h => h
  end.

(** The largest of [h0] and the heights the calls of [us] bring. *)
Definition max_height (h0 : Z) (us : list update) : Z :=
  fold_left (fun m u => Z.max m (update_height u)) us h0.

(** The largest of [h0] and the heights of the snapshots [us] brings. *)
Definition max_snapshot_height (h0 : Z) (us : list update) : Z :=
  fold_left (fun m u =>
               match u with
               | SetState s => Z.max m (state.Height s)
               | SetHeight _ => m
               end) us h0.

(** The labels under which a writer runs. *)
Definition writer_label (l : label) : bool :=
  match l with
  | CallSetState _ | CallSetHeight _ | HeightsRecv _ => true
  | _ => false
  end.



(** ** What a result of [BlockSoonWaiter] tells *)

Section Results.
Context {S : Type} `{!Store S}.

(** Every value on the result channel of [b] is [nil] with the height
    reached, [ErrTheDistantFuture], or the error of the context of [b]. *)
Definition result_sound (w : World S) (b : soon) : Prop :=
  forall r, r ∈ soon_ch b ->
    (r = None /\ soon_height b <= state_height (chain w))
    \/ r = Some ErrTheDistantFuture
    \/ (exists e, r = Some (Err e) /\ ctx_Err w (soon_ctx b) = Some e).


End Results.

(** At height 10, a bounded wait for height 12 whose context is cancelled
    while it is in its [select]. *)
Definition world_cancelled_12 : World MemStore :=
  after [CallBlockSoonWaiter 1 12; Run 0%nat; Cancel 1 Canceled] (world_at 10).



(** ** The two writers *)

Section Writers.
Context {S : Type} `{!Store S}.
Implicit Types (c : Chain S) (s : state.Snapshot) (h : Z) (u : update).

Lemma setState_stale s c :
  state.Height s <= state.Height (state_snapshot c) -> setState s c = c.
Proof.
  intros Hle. unfold setState.
  destruct (Z.leb_spec (state.Height s) (state.Height (state_snapshot c)));
    [reflexivity | lia].
Qed.

Lemma setState_fresh s c :
  state.Height (state_snapshot c) < state.Height s ->
  setState s c =
    if state.Height s >? state_height c
    then Broadcast (with_height (state.Height s) (with_snapshot s c))
    else with_snapshot s c.
Proof.
  intros Hlt. unfold setState.
  destruct (Z.leb_spec (state.Height s) (state.Height (state_snapshot c)));
    [lia | reflexivity].
Qed.

Lemma setState_height s c :
  state_height (setState s c) = state_height c
  \/ (state_height c < state.Height s
      /\ state_height (setState s c) = state.Height s).
Proof.
  unfold setState.
  destruct (Z.leb_spec (state.Height s) (state.Height (state_snapshot c)));
    [now left |].
  cbn. destruct (Z.gtb_spec (state.Height s) (state_height c)); cbn; auto.
Qed.

Lemma setHeight_height h c :
  state_height (setHeight h c) = Z.max (state_height c) h.
Proof.
  unfold setHeight. destruct (Z.leb_spec h (state_height c)); cbn; lia.
Qed.

Lemma apply_update_height u c :
  state_height c <= state_height (apply_update u c).
Proof.
  destruct u as [s | h]; cbn.
  - destruct (setState_height s c) as [-> | [? ->]]; lia.
  - rewrite setHeight_height. lia.
Qed.

Lemma apply_updates_app (us vs : list update) c :
  apply_updates (us ++ vs) c = apply_updates vs (apply_updates us c).
Proof. unfold apply_updates. apply fold_left_app. Qed.

Lemma apply_updates_height (us : list update) c :
  state_height c <= state_height (apply_updates us c).
Proof.
  revert c. induction us as [| u us IH]; intros c; cbn; [lia |].
  etransitivity; [apply (apply_update_height u) | apply IH].
Qed.

Lemma setState_snapshot_behind s c :
  snapshot_behind c -> snapshot_behind (setState s c).
Proof.
  unfold snapshot_behind, setState. intros Hinv.
  destruct (Z.leb_spec (state.Height s) (state.Height (state_snapshot c)));
    [assumption |].
  cbn. destruct (Z.gtb_spec (state.Height s) (state_height c)); cbn; lia.
Qed.

Lemma setHeight_snapshot_behind h c :
  snapshot_behind c -> snapshot_behind (setHeight h c).
Proof.
  unfold snapshot_behind, setHeight. intros Hinv.
  destruct (Z.leb_spec h (state_height c)); cbn; lia.
Qed.

Lemma apply_updates_snapshot_behind (us : list update) c :
  snapshot_behind c -> snapshot_behind (apply_updates us c).
Proof.
  revert c. induction us as [| u us IH]; intros c Hinv; cbn; [assumption |].
  apply IH. destruct u; cbn;
    [apply setState_snapshot_behind | apply setHeight_snapshot_behind];
    assumption.
Qed.

Lemma NewChain_inl ctxs ctx initialBlock (st : S) heights w :
  NewChain ctxs ctx initialBlock st heights = inl w ->
  exists h,
    store_Height st = inl h
    /\ w = mkWorld
             (mkChain (bc.Block_Hash initialBlock) 0 0 (mkCond [] 0%nat) h
                      state.Empty st 0 [])
             ctxs (if heights then Some ctx else None) (Some ctx) [] [].
Proof.
  unfold NewChain. destruct (store_Height st) as [h | e]; [| discriminate].
  intros [= <-]. exists h. split; reflexivity.
Qed.

(** C1. When [s.Height()] is strictly greater than the height of the current
    snapshot, [setState s] makes [s] the tracked snapshot and leaves the
    tracked height at the larger of its old value and [s.Height()]: it is
    set to [s.Height()] when that is strictly greater, and kept otherwise. *)
Theorem setState_replaces_snapshot s c :
  state.Height s > state.Height (State c) ->
  State (setState s c) = s
  /\ Height (setState s c) = Z.max (Height c) (state.Height s)
  /\ (state.Height s > Height c -> Height (setState s c) = state.Height s)
  /\ (state.Height s <= Height c -> Height (setState s c) = Height c).
Proof.
  unfold State, Height. intros Hgt.
  rewrite setState_fresh by lia.
  destruct (Z.gtb_spec (state.Height s) (state_height c)); cbn;
    repeat split; intros; lia || reflexivity.
Qed.

(** C2. [setHeight h] changes nothing when [h] is at most the tracked
    height, and otherwise sets the tracked height to exactly [h]; the tracked
    snapshot is the same after the call in both cases. *)
Theorem setHeight_advances_or_ignores h c :
  (h <= Height c -> setHeight h c = c)
  /\ (Height c < h -> Height (setHeight h c) = h)
  /\ State (setHeight h c) = State c.
Proof.
  unfold State, Height, setHeight.
  destruct (Z.leb_spec h (state_height c)); cbn;
    repeat split; intros; lia || reflexivity.
Qed.

(** C3. When [s.Height()] is at most the height of the current snapshot,
    [setState s] leaves the chain as it was: [State()] and [Height()] answer
    after the call what they answered before. *)
Theorem setState_ignores_stale s c :
  state.Height s <= state.Height (State c) ->
  setState s c = c
  /\ State (setState s c) = State c
  /\ Height (setState s c) = Height c.
Proof.
  unfold State. intros Hle. rewrite (setState_stale s c Hle). auto.
Qed.

(** C4. Over any sequence of [setHeight] and [setState] calls, [Height()]
    never decreases: not across one more call, and not across any number of
    further calls. *)
Theorem Height_never_decreases (us : list update) c :
  (forall u, Height (apply_updates us c)
             <= Height (apply_update u (apply_updates us c)))
  /\ (forall vs, Height (apply_updates us c)
                 <= Height (apply_updates (us ++ vs) c)).
Proof.
  unfold Height. split.
  - intros u. apply apply_update_height.
  - intros vs. rewrite apply_updates_app. apply apply_updates_height.
Qed.

(** C5. [NewChain] starts with the empty snapshot, of height zero, and with
    the height [store.Height] answered, so the height of the snapshot is at
    most the tracked height; every sequence of [setState] and [setHeight]
    calls keeps it so. *)
Theorem snapshot_height_at_most_Height
    ctxs ctx initialBlock (st : S) heights h w (us : list update) :
  store_Height st = inl h ->
  is_uint64 h ->
  NewChain ctxs ctx initialBlock st heights = inl w ->
  State (chain w) = state.Empty
  /\ Height (chain w) = h
  /\ state.Height (State (chain w)) <= Height (chain w)
  /\ state.Height (State (apply_updates us (chain w)))
     <= Height (apply_updates us (chain w)).
Proof.
  intros Hst [Hlo _] Hnew.
  apply NewChain_inl in Hnew as (h' & Hst' & ->).
  assert (h' = h) as -> by congruence.
  unfold State, Height. cbn. repeat split; try assumption.
  apply apply_updates_snapshot_behind. unfold snapshot_behind. cbn. assumption.
Qed.

(** C6, amended. When [setState] accepts [s] it makes [s] the tracked
    snapshot; it wakes all waiters exactly when [s.Height()] is greater than
    the tracked height, and otherwise leaves the condition as it was; it
    sends nothing on [pendingSnapshots], whose contents stay what they
    were. *)
Theorem setState_accept_effects s c :
  accepts s c ->
  State (setState s c) = s
  /\ pendingSnapshots (setState s c) = pendingSnapshots c
  /\ (state.Height s > Height c -> wakes_all c (setState s c))
  /\ (state.Height s <= Height c -> state_cond (setState s c) = state_cond c).
Proof.
  unfold accepts, State, Height, wakes_all. intros Hgt.
  rewrite setState_fresh by lia.
  destruct (Z.gtb_spec (state.Height s) (state_height c)); cbn;
    repeat split; intros; lia || reflexivity.
Qed.

End Writers.

(** ** The running program *)

Section Program.
Context {S : Type} `{!Store S}.
Implicit Types (c : Chain S) (w : World S) (s : state.Snapshot) (h : Z).
Implicit Types (g : nat) (l : label).

Lemma uint64b_spec (z : Z) : uint64b z = true <-> is_uint64 z.
Proof. unfold uint64b, is_uint64. rewrite andb_true_iff. lia. Qed.

Lemma setState_quiet_or_woken s c : quiet_or_woken c (setState s c).
Proof.
  unfold quiet_or_woken, setState.
  destruct (Z.leb_spec (state.Height s) (state.Height (state_snapshot c)));
    [now left |].
  cbn. destruct (Z.gtb_spec (state.Height s) (state_height c)); cbn;
    [right | left]; split; reflexivity || lia.
Qed.

Lemma setHeight_quiet_or_woken h c : quiet_or_woken c (setHeight h c).
Proof.
  unfold quiet_or_woken, setHeight.
  destruct (Z.leb_spec h (state_height c)); cbn;
    [left | right]; split; reflexivity || lia.
Qed.

Lemma setState_uint64 s c :
  is_uint64 (state.Height s) -> is_uint64 (state_height c) ->
  is_uint64 (state_height (setState s c)).
Proof.
  intros Hs Hc. destruct (setState_height s c) as [-> | [_ ->]]; assumption.
Qed.

Lemma setHeight_uint64 h c :
  is_uint64 h -> is_uint64 (state_height c) ->
  is_uint64 (state_height (setHeight h c)).
Proof.
  unfold is_uint64. intros Hh Hc. rewrite setHeight_height. lia.
Qed.

Lemma waiter_ok_mono w w' (b : waiter) :
  state_height (chain w) <= state_height (chain w') ->
  waiter_ok w b -> waiter_ok w' b.
Proof.
  unfold waiter_ok. intros Hle [Hu Hb]. split; [assumption |].
  destruct (waiter_at b); try assumption.
  destruct Hb. split; [lia | assumption].
Qed.

(** A transition that touches no goroutine keeps the invariant when the
    chain stays quiet or everybody is woken. *)
Lemma world_ok_frame w w' :
  goroutines w' = goroutines w ->
  quiet_or_woken (chain w) (chain w') ->
  is_uint64 (state_height (chain w')) ->
  world_ok w -> world_ok w'.
Proof.
  intros Hg Hq Hu [_ Hp Hgs].
  assert (state_height (chain w) <= state_height (chain w')) as Hle
    by (destruct Hq as [[_ ->] | [_ ?]]; lia).
  split; [assumption | |].
  - intros g Hin. destruct Hq as [[Hc Hh] | [Hnil _]].
    + rewrite Hc in Hin. destruct (Hp g Hin) as (b & ? & ? & ?).
      exists b. rewrite Hg, Hh. auto.
    + rewrite Hnil in Hin. inversion Hin.
  - intros g x Hx. rewrite Hg in Hx. specialize (Hgs g x Hx).
    destruct x as [b | b]; cbn in *.
    + eapply waiter_ok_mono; eassumption.
    + destruct Hgs as [? Hb]. split; [assumption |].
      destruct (soon_at b); try assumption.
      rewrite Hg. assumption.
Qed.

Lemma quiet_refl c c' :
  state_cond c' = state_cond c -> state_height c' = state_height c ->
  quiet_or_woken c c'.
Proof. left. auto. Qed.

Lemma NewChain_world_ok ctxs ctx initialBlock (st : S) heights h w :
  store_Height st = inl h -> is_uint64 h ->
  NewChain ctxs ctx initialBlock st heights = inl w -> world_ok w.
Proof.
  intros Hst Hh Hnew. apply NewChain_inl in Hnew as (h' & Hst' & ->).
  assert (h' = h) as -> by congruence.
  split; cbn.
  - assumption.
  - intros g Hin. cbn in Hin. inversion Hin.
  - intros g x Hx. cbn in Hx. rewrite lookup_nil in Hx. discriminate.
Qed.

Lemma goroutines_put g (x : goroutine) w :
  goroutines (put g x w) = <[g := x]> (goroutines w).
Proof. reflexivity. Qed.

Lemma chain_put g (x : goroutine) w : chain (put g x w) = chain w.
Proof. reflexivity. Qed.

Lemma goroutines_spawn (x : goroutine) w :
  goroutines (spawn x w) = goroutines w ++ [x].
Proof. reflexivity. Qed.

Lemma chain_spawn (x : goroutine) w : chain (spawn x w) = chain w.
Proof. reflexivity. Qed.

Lemma world_ok_spawn w (x : goroutine) :
  world_ok w -> goroutine_ok (spawn x w) x -> world_ok (spawn x w).
Proof.
  intros [Hu Hp Hgs] Hx. split; rewrite ?chain_spawn, ?goroutines_spawn.
  - assumption.
  - intros g Hin. rewrite chain_spawn in Hin |- *.
    destruct (Hp g Hin) as (b & Hb & ? & ?).
    exists b. split; [| auto]. rewrite goroutines_spawn.
    apply lookup_app_l_Some. assumption.
  - intros g y Hy. apply lookup_snoc_Some in Hy as [[_ Hy] | [_ <-]];
      [| assumption].
    specialize (Hgs g y Hy). destruct y as [b | b]; [assumption |].
    destruct Hgs as [? Hb]. split; [assumption |].
    destruct (soon_at b); try assumption.
    destruct Hb as (? & i & Hi & ?). split; [assumption |].
    exists i. split; [| assumption]. rewrite goroutines_spawn.
    apply lookup_app_l_Some. assumption.
Qed.

Lemma goroutines_ok_replace w w' g (x x' : goroutine) :
  (forall g0 y, goroutines w !! g0 = Some y -> goroutine_ok w y) ->
  goroutines w !! g = Some x ->
  goroutines w' = <[g := x']> (goroutines w) ->
  state_height (chain w') = state_height (chain w) ->
  same_kind x x' ->
  goroutine_ok w' x' ->
  forall g0 y, goroutines w' !! g0 = Some y -> goroutine_ok w' y.
Proof.
  intros Hgs Hg Hw' Hh Hk Hx' g' y Hy. rewrite Hw' in Hy.
  apply list_lookup_insert_Some in Hy as [(<- & <- & _) | [Hne Hy]];
    [assumption |].
  specialize (Hgs g' y Hy). destruct y as [b | b].
  - eapply waiter_ok_mono; [| eassumption]. lia.
  - destruct Hgs as [? Hb]. split; [assumption |].
    destruct (soon_at b) as [| inner |]; try assumption.
    destruct Hb as (? & i & Hi & Hi'). split; [assumption |].
    rewrite Hw'. destruct (decide (g = inner)) as [-> | Hgi].
    + rewrite Hg in Hi. injection Hi as ->.
      destruct x' as [b' | b']; cbn in Hk; [| contradiction].
      exists b'. split; [| congruence].
      apply list_lookup_insert_eq. eapply lookup_lt_Some. eassumption.
    + exists i. split; [| assumption].
      rewrite list_lookup_insert_ne; assumption.
Qed.

Lemma world_ok_put w g (x x' : goroutine) :
  world_ok w ->
  goroutines w !! g = Some x ->
  g ∉ cond_parked (state_cond (chain w)) ->
  same_kind x x' ->
  goroutine_ok (put g x' w) x' ->
  world_ok (put g x' w).
Proof.
  intros [Hu Hp Hgs] Hg Hnp Hk Hx'. split.
  - assumption.
  - intros g' Hin. rewrite chain_put in Hin |- *.
    destruct (Hp g' Hin) as (b & Hb & ? & ?).
    exists b. split; [| auto]. rewrite goroutines_put.
    rewrite list_lookup_insert_ne; [assumption |]. intros ->. contradiction.
  - eapply goroutines_ok_replace; eauto.
Qed.

Lemma world_ok_Wait w g (b : waiter) :
  world_ok w ->
  goroutines w !! g = Some (GoBlockWaiter b) ->
  waiter_at b <> WaiterDone ->
  state_height (chain w) < waiter_height b ->
  world_ok (put g (GoBlockWaiter
                     (mkWaiter (waiter_height b) WaiterWait (waiter_ch b)))
                (on_chain (Wait g) w)).
Proof.
  intros [Hu Hp Hgs] Hg Hat Hlt.
  assert (waiter_ok w b) as [Hub Hb] by exact (Hgs g _ Hg).
  assert (waiter_ch b = []) as Hch by (destruct (waiter_at b); tauto).
  split.
  - assumption.
  - intros g' Hin. rewrite goroutines_put. cbn in Hin |- *.
    destruct (decide (g' = g)) as [-> | Hne].
    + exists (mkWaiter (waiter_height b) WaiterWait (waiter_ch b)).
      split; [| split; [reflexivity | assumption]].
      apply list_lookup_insert_eq. eapply lookup_lt_Some. eassumption.
    + apply elem_of_cons in Hin as [? | Hin]; [contradiction |].
      destruct (Hp g' Hin) as (b' & Hb' & ? & ?).
      exists b'. split; [| auto].
      rewrite list_lookup_insert_ne; [assumption | congruence].
  - eapply goroutines_ok_replace; [exact Hgs | exact Hg | reflexivity
                                  | reflexivity | reflexivity |].
    split; [assumption |]. cbn. assumption.
Qed.

Lemma soon_not_parked w g (b : soon) :
  world_ok w -> goroutines w !! g = Some (GoBlockSoonWaiter b) ->
  g ∉ cond_parked (state_cond (chain w)).
Proof.
  intros [_ Hp _] Hg Hin. destruct (Hp g Hin) as (b' & Hb' & _). congruence.
Qed.

Lemma parked_spec g c :
  parked g c = true <-> g ∈ cond_parked (state_cond c).
Proof. unfold parked. apply bool_decide_eq_true. Qed.

Lemma parked_false g c :
  parked g c = false <-> g ∉ cond_parked (state_cond c).
Proof. unfold parked. apply bool_decide_eq_false. Qed.

Lemma chan_send_Some {A : Type} (cap : nat) (buf q : list A) (v : A) :
  chan_send cap buf v = Some q -> q = buf ++ [v] /\ (length buf < cap)%nat.
Proof.
  unfold chan_send. destruct (Nat.ltb_spec (length buf) cap); [| discriminate].
  intros [= <-]. auto.
Qed.

Lemma chan_send_empty {A : Type} (v : A) : chan_send 1 [] v = Some [v].
Proof. reflexivity. Qed.

Lemma chan_recv_Some {A : Type} (buf rest : list A) (v : A) :
  chan_recv buf = Some (v, rest) -> buf = v :: rest.
Proof. destruct buf; cbn; [discriminate |]. intros [= <- <-]. reflexivity. Qed.

(** What a turn of a [BlockWaiter] goroutine is, when it has one. *)
Lemma run_BlockWaiter_Some g (b : waiter) w w' :
  run_BlockWaiter g b w = Some w' ->
  waiter_at b <> WaiterDone
  /\ (g ∉ cond_parked (state_cond (chain w)))
  /\ ((state_height (chain w) < waiter_height b
       /\ w' = put g (GoBlockWaiter
                        (mkWaiter (waiter_height b) WaiterWait (waiter_ch b)))
                   (on_chain (Wait g) w))
      \/ (waiter_height b <= state_height (chain w)
          /\ exists ch, chan_send 1 (waiter_ch b) () = Some ch
               /\ w' = put g (GoBlockWaiter
                                (mkWaiter (waiter_height b) WaiterDone ch)) w)).
Proof.
  unfold run_BlockWaiter. intros Hrun.
  assert (waiter_at b <> WaiterDone) as Hat
    by (intros Hd; rewrite Hd in Hrun; discriminate).
  split; [assumption |].
  assert ((if parked g (chain w) then None
           else if state_height (chain w) <? waiter_height b
                then Some (put g (GoBlockWaiter
                                    (mkWaiter (waiter_height b) WaiterWait
                                              (waiter_ch b)))
                               (on_chain (Wait g) w))
                else ch ← chan_send 1 (waiter_ch b) ();
                     Some (put g (GoBlockWaiter
                                    (mkWaiter (waiter_height b) WaiterDone ch))
                               w)) = Some w') as Hrun'
    by (destruct (waiter_at b); [exact Hrun | exact Hrun | contradiction]).
  clear Hrun. destruct (parked g (chain w)) eqn:Hpk; [discriminate |].
  apply parked_false in Hpk. split; [assumption |].
  destruct (Z.ltb_spec (state_height (chain w)) (waiter_height b)).
  - left. injection Hrun' as <-. auto.
  - right. split; [lia |].
    apply bind_Some in Hrun' as (ch & Hch & [= <-]). eauto.
Qed.

Lemma world_ok_run_BlockWaiter g (b : waiter) w w' :
  world_ok w ->
  goroutines w !! g = Some (GoBlockWaiter b) ->
  run_BlockWaiter g b w = Some w' ->
  world_ok w'.
Proof.
  intros Hok Hg Hrun.
  apply run_BlockWaiter_Some in Hrun
    as (Hat & Hnp & [[Hlt ->] | (Hle & ch & Hch & ->)]).
  - apply world_ok_Wait; assumption.
  - assert (waiter_ok w b) as [Hub Hb] by exact (ok_goroutines w Hok g _ Hg).
    assert (waiter_ch b = []) as Hnil
      by (destruct (waiter_at b); first [tauto | contradiction]).
    rewrite Hnil in Hch. injection Hch as <-.
    eapply world_ok_put; eauto; [reflexivity |].
    split; [assumption |]. cbn. split; [assumption | lia].
Qed.

(** What the first turn of a [BlockSoonWaiter] goroutine is. *)
Lemma run_BlockSoonWaiter_Some g (b : soon) w w' :
  run_BlockSoonWaiter g b w = Some w' ->
  soon_at b = SoonCheck
  /\ ((soon_height b > add64 (Height (chain w)) slop
       /\ exists ch,
            chan_send 1 (soon_ch b) (Some ErrTheDistantFuture) = Some ch
            /\ w' = put g (GoBlockSoonWaiter
                             (mkSoon (soon_ctx b) (soon_height b) SoonDone ch))
                        w)
      \/ (soon_height b <= add64 (Height (chain w)) slop
          /\ w' = put g (GoBlockSoonWaiter
                           (mkSoon (soon_ctx b) (soon_height b)
                                   (SoonSelect (length (goroutines w)))
                                   (soon_ch b)))
                      (BlockWaiter (soon_height b) w))).
Proof.
  unfold run_BlockSoonWaiter. intros Hrun.
  destruct (soon_at b); try discriminate. split; [reflexivity |].
  destruct (Z.gtb_spec (soon_height b) (add64 (Height (chain w)) slop)).
  - left. split; [lia |].
    apply bind_Some in Hrun as (ch & Hch & [= <-]). eauto.
  - right. injection Hrun as <-. split; [lia | reflexivity].
Qed.

Lemma world_ok_run_BlockSoonWaiter g (b : soon) w w' :
  world_ok w ->
  goroutines w !! g = Some (GoBlockSoonWaiter b) ->
  run_BlockSoonWaiter g b w = Some w' ->
  world_ok w'.
Proof.
  intros Hok Hg Hrun.
  assert (soon_ok w b) as [Hub Hb] by exact (ok_goroutines w Hok g _ Hg).
  apply run_BlockSoonWaiter_Some in Hrun
    as (Hat & [(_ & ch & Hch & ->) | (_ & ->)]);
    rewrite Hat in Hb.
  - rewrite Hb in Hch. injection Hch as <-.
    eapply world_ok_put; eauto using soon_not_parked; [exact I |].
    split; [assumption |]. cbn. eauto.
  - assert (world_ok (BlockWaiter (soon_height b) w)) as Hok'.
    { apply world_ok_spawn; [assumption |]. split; [assumption | reflexivity]. }
    assert (goroutines (BlockWaiter (soon_height b) w) !! g
            = Some (GoBlockSoonWaiter b)) as Hg'
      by (apply lookup_app_l_Some; assumption).
    eapply world_ok_put; eauto using soon_not_parked; [exact I |].
    split; [assumption |]. cbn. split; [assumption |].
    exists (mkWaiter (soon_height b) WaiterLock []). split; [| reflexivity].
    apply lookup_lt_Some in Hg.
    rewrite list_lookup_insert_ne by lia.
    apply list_lookup_middle. reflexivity.
Qed.

(** What the [select] of a [BlockSoonWaiter] goroutine is, case by case. *)
Lemma select_BlockSoonWaiter_Some g (b : soon) k w w' :
  select_BlockSoonWaiter g b k w = Some w' ->
  exists inner, soon_at b = SoonSelect inner
  /\ match k with
     | CaseBlockWaiter =>
         exists i v rest ch,
           goroutines w !! inner = Some (GoBlockWaiter i)
           /\ waiter_ch i = v :: rest
           /\ chan_send 1 (soon_ch b) None = Some ch
           /\ w' = put g (GoBlockSoonWaiter
                            (mkSoon (soon_ctx b) (soon_height b) SoonDone ch))
                       (put inner
                            (GoBlockWaiter
                               (mkWaiter (waiter_height i) (waiter_at i) rest))
                            w)
     | CaseDone =>
         exists e ch,
           ctx_Err w (soon_ctx b) = Some e
           /\ chan_send 1 (soon_ch b) (Some (Err e)) = Some ch
           /\ w' = put g (GoBlockSoonWaiter
                            (mkSoon (soon_ctx b) (soon_height b) SoonDone ch))
                       w
     end.
Proof.
  unfold select_BlockSoonWaiter. intros Hsel.
  destruct (soon_at b) as [| inner |]; try discriminate.
  exists inner. split; [reflexivity |]. destruct k.
  - destruct (goroutines w !! inner) as [[i | ?] |]; try discriminate.
    apply bind_Some in Hsel as ([v rest] & Hrecv & Hsel).
    apply bind_Some in Hsel as (ch & Hch & [= <-]).
    apply chan_recv_Some in Hrecv.
    exists i, v, rest, ch. auto.
  - apply bind_Some in Hsel as (e & He & Hsel).
    apply bind_Some in Hsel as (ch & Hch & [= <-]).
    exists e, ch. auto.
Qed.

Lemma world_ok_select_BlockSoonWaiter g (b : soon) k w w' :
  world_ok w ->
  goroutines w !! g = Some (GoBlockSoonWaiter b) ->
  select_BlockSoonWaiter g b k w = Some w' ->
  world_ok w'.
Proof.
  intros Hok Hg Hsel.
  assert (soon_ok w b) as [Hub Hb] by exact (ok_goroutines w Hok g _ Hg).
  apply select_BlockSoonWaiter_Some in Hsel as (inner & Hat & Hk).
  rewrite Hat in Hb. destruct Hb as (Hnil & _).
  destruct k.
  - destruct Hk as (i & v & rest & ch & Hi & Hv & Hch & ->).
    rewrite Hnil in Hch. injection Hch as <-.
    assert (waiter_ok w i) as [Hui Hwi] by exact (ok_goroutines w Hok inner _ Hi).
    assert (waiter_at i = WaiterDone) as Hdone
      by (destruct (waiter_at i); [rewrite Hv in Hwi; discriminate
                                  | rewrite Hv in Hwi; discriminate
                                  | reflexivity]).
    rewrite Hdone in Hwi |- *. destruct Hwi as [Hle Hlen].
    assert (inner ∉ cond_parked (state_cond (chain w))) as Hnp.
    { intros Hin. destruct (ok_parked w Hok inner Hin) as (i' & Hi' & Hw & _).
      congruence. }
    assert (g <> inner) as Hne by congruence.
    assert (world_ok (put inner
                          (GoBlockWaiter
                             (mkWaiter (waiter_height i) WaiterDone rest)) w))
      as Hok'.
    { eapply world_ok_put; eauto; [reflexivity |].
      split; [assumption |]. cbn. split; [assumption |].
      rewrite Hv in Hlen. cbn in Hlen. lia. }
    eapply (world_ok_put _ g (GoBlockSoonWaiter b)); [exact Hok' | | | exact I |].
    + rewrite goroutines_put, list_lookup_insert_ne by congruence. exact Hg.
    + rewrite chain_put. eapply soon_not_parked; eassumption.
    + split; [assumption |]. cbn. eauto.
  - destruct Hk as (e & ch & He & Hch & ->).
    rewrite Hnil in Hch. injection Hch as <-.
    eapply world_ok_put; eauto using soon_not_parked; [exact I |].
    split; [assumption |]. cbn. eauto.
Qed.

Lemma step_world_ok l w w' :
  world_ok w -> label_ok l = true -> step l w = Some w' -> world_ok w'.
Proof.
  intros Hok Hl Hstep. destruct l; cbn in Hl, Hstep.
  - injection Hstep as <-. apply uint64b_spec in Hl.
    apply (world_ok_frame w); [reflexivity | apply setState_quiet_or_woken
                           | | exact Hok].
    apply setState_uint64; [assumption | apply Hok].
  - injection Hstep as <-. apply uint64b_spec in Hl.
    apply (world_ok_frame w); [reflexivity | apply setHeight_quiet_or_woken
                           | | exact Hok].
    apply setHeight_uint64; [assumption | apply Hok].
  - unfold heights_recv in Hstep.
    destruct (heights_worker w); [| discriminate].
    injection Hstep as <-. apply uint64b_spec in Hl.
    apply (world_ok_frame w); [reflexivity | apply setHeight_quiet_or_woken
                           | | exact Hok].
    apply setHeight_uint64; [assumption | apply Hok].
  - unfold heights_done in Hstep.
    apply bind_Some in Hstep as (ctx & _ & Hstep).
    apply bind_Some in Hstep as (e & _ & [= <-]).
    apply (world_ok_frame w); [reflexivity | apply quiet_refl; reflexivity
                           | apply Hok | exact Hok].
  - unfold queue_snapshot in Hstep.
    apply bind_Some in Hstep as (q & _ & [= <-]).
    apply (world_ok_frame w); [reflexivity | apply quiet_refl; reflexivity
                           | apply Hok | exact Hok].
  - unfold snapshots_recv in Hstep.
    apply bind_Some in Hstep as (ctx & _ & Hstep).
    apply bind_Some in Hstep as ([s0 rest] & _ & Hstep).
    destruct (store_SaveSnapshot (store (chain w)) s0) as [st [e |]];
      injection Hstep as <-;
      (apply (world_ok_frame w); [reflexivity | apply quiet_refl; reflexivity
                              | apply Hok | exact Hok]).
  - unfold snapshots_done in Hstep.
    apply bind_Some in Hstep as (ctx & _ & Hstep).
    apply bind_Some in Hstep as (e & _ & [= <-]).
    apply (world_ok_frame w); [reflexivity | apply quiet_refl; reflexivity
                           | apply Hok | exact Hok].
  - unfold cancel in Hstep.
    destruct (contexts w !! ctx) as [[e0 |] |]; try discriminate.
    injection Hstep as <-.
    apply (world_ok_frame w); [reflexivity | apply quiet_refl; reflexivity
                           | apply Hok | exact Hok].
  - injection Hstep as <-. apply uint64b_spec in Hl.
    apply world_ok_spawn; [assumption |]. split; [assumption | reflexivity].
  - injection Hstep as <-. apply uint64b_spec in Hl.
    apply world_ok_spawn; [assumption |]. split; [assumption | reflexivity].
  - destruct (goroutines w !! g) as [[b | b] |] eqn:Hg; [| | discriminate].
    + eapply world_ok_run_BlockWaiter; eassumption.
    + eapply world_ok_run_BlockSoonWaiter; eassumption.
  - destruct (goroutines w !! g) as [[b | b] |] eqn:Hg; try discriminate.
    eapply world_ok_select_BlockSoonWaiter; eassumption.
Qed.

Lemma reachable_world_ok w : reachable w -> world_ok w.
Proof.
  induction 1 as [ctxs ctx ib st heights h w Hst Hh Hnew | l w w' _ IH Hl Hstep].
  - eapply NewChain_world_ok; eassumption.
  - eapply step_world_ok; eassumption.
Qed.

Lemma exec_reachable (ls : list label) w w' :
  reachable w -> exec ls w = Some w' -> reachable w'.
Proof.
  revert w. induction ls as [| l ls IH]; intros w Hr Hex; cbn in Hex.
  - injection Hex as <-. assumption.
  - destruct (label_ok l) eqn:Hl; [| discriminate].
    apply bind_Some in Hex as (w1 & Hstep & Hex).
    eapply IH; [| eassumption]. eapply reachable_step; eassumption.
Qed.

Lemma add64_le (a : Z) : is_uint64 a -> add64 a slop <= a + 3.
Proof.
  unfold is_uint64, add64, slop, uint64_modulus. intros Ha.
  apply Z.mod_le; lia.
Qed.

Lemma add64_wraps (a : Z) :
  is_uint64 a -> a > uint64_max - 3 ->
  add64 a slop = a + 3 - uint64_modulus.
Proof.
  unfold is_uint64, add64, slop, uint64_max, uint64_modulus.
  change (2 ^ 64) with 18446744073709551616. intros Ha Hgt.
  symmetry. apply (Z.mod_unique _ _ 1); lia.
Qed.

(** What a transition does to a given [BlockSoonWaiter] goroutine: nothing,
    unless it is that goroutine's own turn. *)
Lemma step_soon l w w' g (b : soon) :
  step l w = Some w' ->
  goroutines w !! g = Some (GoBlockSoonWaiter b) ->
  goroutines w' !! g = Some (GoBlockSoonWaiter b)
  \/ (l = Run g /\ soon_at b = SoonCheck)
  \/ (exists k v,
        l = Select g k
        /\ v <> Some ErrTheDistantFuture
        /\ goroutines w' !! g
           = Some (GoBlockSoonWaiter
                     (mkSoon (soon_ctx b) (soon_height b) SoonDone
                             (soon_ch b ++ [v])))).
Proof.
  intros Hstep Hg. destruct l; cbn in Hstep.
  - injection Hstep as <-. left. exact Hg.
  - injection Hstep as <-. left. exact Hg.
  - unfold heights_recv in Hstep. destruct (heights_worker w); [| discriminate].
    injection Hstep as <-. left. exact Hg.
  - unfold heights_done in Hstep.
    apply bind_Some in Hstep as (? & _ & Hstep).
    apply bind_Some in Hstep as (? & _ & [= <-]). left. exact Hg.
  - unfold queue_snapshot in Hstep.
    apply bind_Some in Hstep as (? & _ & [= <-]). left. exact Hg.
  - unfold snapshots_recv in Hstep.
    apply bind_Some in Hstep as (? & _ & Hstep).
    apply bind_Some in Hstep as ([s0 rest] & _ & Hstep).
    destruct (store_SaveSnapshot (store (chain w)) s0) as [st [e |]];
      injection Hstep as <-; left; exact Hg.
  - unfold snapshots_done in Hstep.
    apply bind_Some in Hstep as (? & _ & Hstep).
    apply bind_Some in Hstep as (? & _ & [= <-]). left. exact Hg.
  - unfold cancel in Hstep.
    destruct (contexts w !! ctx) as [[e0 |] |]; try discriminate.
    injection Hstep as <-. left. exact Hg.
  - injection Hstep as <-. left.
    apply lookup_app_l_Some. exact Hg.
  - injection Hstep as <-. left.
    apply lookup_app_l_Some. exact Hg.
  - destruct (decide (g0 = g)) as [-> | Hne].
    + rewrite Hg in Hstep.
      apply run_BlockSoonWaiter_Some in Hstep as [Hat _]. right. left. auto.
    + left. destruct (goroutines w !! g0) as [[b0 | b0] |] eqn:Hg0;
        [| | discriminate].
      * apply run_BlockWaiter_Some in Hstep
          as (_ & _ & [[_ ->] | (_ & ch & _ & ->)]);
          rewrite goroutines_put, list_lookup_insert_ne by assumption;
          exact Hg.
      * apply run_BlockSoonWaiter_Some in Hstep
          as (_ & [(_ & ch & _ & ->) | (_ & ->)]);
          rewrite goroutines_put, list_lookup_insert_ne by assumption;
          [exact Hg | apply lookup_app_l_Some; exact Hg].
  - destruct (decide (g0 = g)) as [-> | Hne].
    + rewrite Hg in Hstep. right. right.
      apply select_BlockSoonWaiter_Some in Hstep as (inner & Hat & Hk).
      apply lookup_lt_Some in Hg as Hlt.
      destruct k.
      * destruct Hk as (i & v & rest & ch & Hi & _ & Hch & ->).
        apply chan_send_Some in Hch as [-> _].
        exists CaseBlockWaiter, None. split; [reflexivity |].
        split; [discriminate |].
        rewrite goroutines_put. apply list_lookup_insert_eq.
        rewrite goroutines_put, length_insert. exact Hlt.
      * destruct Hk as (e & ch & _ & Hch & ->).
        apply chan_send_Some in Hch as [-> _].
        exists CaseDone, (Some (Err e)). split; [reflexivity |].
        split; [discriminate |].
        rewrite goroutines_put. apply list_lookup_insert_eq. exact Hlt.
    + left. destruct (goroutines w !! g0) as [[b0 | b0] |] eqn:Hg0;
        try discriminate.
      apply select_BlockSoonWaiter_Some in Hstep as (inner & Hat & Hk).
      destruct k.
      * destruct Hk as (i & v & rest & ch & Hi & _ & _ & ->).
        rewrite goroutines_put, list_lookup_insert_ne by assumption.
        rewrite goroutines_put, list_lookup_insert_ne by congruence.
        exact Hg.
      * destruct Hk as (e & ch & _ & _ & ->).
        rewrite goroutines_put, list_lookup_insert_ne by assumption.
        exact Hg.
Qed.

Lemma step_within_slop l w w' g (b : soon) :
  step l w = Some w' ->
  goroutines w !! g = Some (GoBlockSoonWaiter b) ->
  within_slop b ->
  exists b',
    goroutines w' !! g = Some (GoBlockSoonWaiter b')
    /\ soon_ctx b' = soon_ctx b
    /\ soon_height b' = soon_height b
    /\ within_slop b'.
Proof.
  intros Hstep Hg [Hat Hch].
  destruct (step_soon l w w' g b Hstep Hg)
    as [Hsame | [[_ Hcheck] | (k & v & _ & Hv & Hdone)]].
  - exists b. unfold within_slop. auto.
  - contradiction.
  - eexists. split; [exact Hdone |]. cbn. repeat split; try discriminate.
    intros [Hin | Hin]%elem_of_app; [contradiction |].
    apply list_elem_of_singleton in Hin. congruence.
Qed.

Lemma exec_within_slop (ls : list label) w w' g (b : soon) :
  exec ls w = Some w' ->
  goroutines w !! g = Some (GoBlockSoonWaiter b) ->
  within_slop b ->
  exists b',
    goroutines w' !! g = Some (GoBlockSoonWaiter b')
    /\ soon_ctx b' = soon_ctx b
    /\ soon_height b' = soon_height b
    /\ within_slop b'.
Proof.
  revert w b. induction ls as [| l ls IH]; intros w b Hex Hg Hin; cbn in Hex.
  - injection Hex as <-. exists b. auto.
  - destruct (label_ok l); [| discriminate].
    apply bind_Some in Hex as (w1 & Hstep & Hex).
    destruct (step_within_slop l w w1 g b Hstep Hg Hin)
      as (b1 & Hg1 & Hc1 & Hh1 & Hin1).
    destruct (IH w1 b1 Hex Hg1 Hin1) as (b' & ? & ? & ? & ?).
    exists b'. split; [assumption |]. split; [congruence |].
    split; [congruence | assumption].
Qed.

(** C7. When the target height is more than [Height() + 3] at the [slop]
    test, the goroutine of [BlockSoonWaiter] puts [ErrTheDistantFuture] on
    its result channel in that same turn and returns: no [BlockWaiter]
    goroutine is started, the chain (the condition with it) is untouched, no
    [select] is entered, and the outcome is the same whatever the state of
    the contexts. *)
Theorem BlockSoonWaiter_distant_future w g (b : soon) :
  reachable w ->
  goroutines w !! g = Some (GoBlockSoonWaiter b) ->
  soon_at b = SoonCheck ->
  soon_height b > Height (chain w) + 3 ->
  let b' := mkSoon (soon_ctx b) (soon_height b) SoonDone
                   [Some ErrTheDistantFuture] in
  step (Run g) w = Some (put g (GoBlockSoonWaiter b') w)
  /\ length (goroutines (put g (GoBlockSoonWaiter b') w))
     = length (goroutines w)
  /\ chain (put g (GoBlockSoonWaiter b') w) = chain w
  /\ (forall k, step (Select g k) w = None)
  /\ (forall cs, step (Run g) (with_contexts cs w)
                 = Some (with_contexts cs (put g (GoBlockSoonWaiter b') w))).
Proof.
  intros Hr Hg Hat Hgt b'.
  pose proof (reachable_world_ok w Hr) as Hok.
  assert (soon_ok w b) as [Hub Hb] by exact (ok_goroutines w Hok g _ Hg).
  rewrite Hat in Hb.
  assert ((soon_height b >? add64 (Height (chain w)) slop) = true) as Hguard.
  { pose proof (add64_le (Height (chain w)) (ok_height w Hok)). lia. }
  assert (forall cs, step (Run g) (with_contexts cs w)
                     = Some (with_contexts cs (put g (GoBlockSoonWaiter b') w)))
    as Hany.
  { intros cs. unfold step. cbn [goroutines with_contexts]. rewrite Hg.
    unfold run_BlockSoonWaiter. cbn [chain with_contexts].
    rewrite Hat, Hguard, Hb. reflexivity. }
  split; [| split; [| split; [| split]]].
  - unfold step. rewrite Hg. unfold run_BlockSoonWaiter.
    rewrite Hat, Hguard, Hb. reflexivity.
  - rewrite goroutines_put. apply length_insert.
  - reflexivity.
  - intros k. unfold step. rewrite Hg. unfold select_BlockSoonWaiter.
    rewrite Hat. reflexivity.
  - exact Hany.
Qed.

(** C8, amended.  Take a [BlockSoonWaiter] goroutine whose target is at most
    [Height() + 3], as the code computes that sum, at the [slop] test.
    However the program goes on, its result channel never holds
    [ErrTheDistantFuture]; and whenever it is still in its [select] with the
    context done and the tracked height below the target, the case of the
    [BlockWaiter] channel cannot proceed and the [select] delivers
    [ctx.Err()]. *)
Theorem BlockSoonWaiter_cancellation w0 g (b : soon) (tr : list label) w :
  reachable w0 ->
  goroutines w0 !! g = Some (GoBlockSoonWaiter b) ->
  soon_at b = SoonCheck ->
  soon_height b <= add64 (Height (chain w0)) slop ->
  exec (Run g :: tr) w0 = Some w ->
  exists b',
    goroutines w !! g = Some (GoBlockSoonWaiter b')
    /\ soon_ctx b' = soon_ctx b
    /\ soon_height b' = soon_height b
    /\ (Some ErrTheDistantFuture ∉ soon_ch b')
    /\ (forall e,
          soon_at b' <> SoonDone ->
          ctx_Err w (soon_ctx b) = Some e ->
          Height (chain w) < soon_height b ->
          step (Select g CaseBlockWaiter) w = None
          /\ step (Run g) w = None
          /\ step (Select g CaseDone) w
             = Some (put g (GoBlockSoonWaiter
                              (mkSoon (soon_ctx b) (soon_height b) SoonDone
                                      [Some (Err e)])) w)).
Proof.
  intros Hr Hg Hat Hle Hex.
  pose proof (exec_reachable _ _ _ Hr Hex) as Hrw.
  pose proof (reachable_world_ok w0 Hr) as Hok0.
  assert (soon_ok w0 b) as [Hub Hb] by exact (ok_goroutines w0 Hok0 g _ Hg).
  rewrite Hat in Hb.
  cbn [exec label_ok] in Hex.
  apply bind_Some in Hex as (w1 & Hstep & Hex).
  cbn in Hstep. rewrite Hg in Hstep.
  apply run_BlockSoonWaiter_Some in Hstep
    as (_ & [(Hgt & _) | (_ & ->)]); [lia |].
  apply lookup_lt_Some in Hg as Hlt.
  edestruct (exec_within_slop tr) as (b' & Hg' & Hc' & Hh' & Hat' & Hch');
    [exact Hex | | | ].
  { rewrite goroutines_put. apply list_lookup_insert_eq.
    unfold BlockWaiter. rewrite goroutines_spawn, length_app. lia. }
  { split; cbn; [discriminate | rewrite Hb; apply not_elem_of_nil]. }
  cbn in Hc', Hh'.
  exists b'. repeat (split; [assumption |]).
  intros e Hnd He Hbelow.
  pose proof (reachable_world_ok w Hrw) as Hok.
  assert (soon_ok w b') as [_ Hb'] by exact (ok_goroutines w Hok g _ Hg').
  destruct (soon_at b') as [| inner |] eqn:Hpc; try contradiction.
  destruct Hb' as (Hnil & i & Hi & Hhi).
  assert (waiter_ok w i) as [_ Hwi] by exact (ok_goroutines w Hok inner _ Hi).
  assert (waiter_ch i = []) as Hich.
  { destruct (waiter_at i); try assumption.
    destruct Hwi as [Hreached _]. unfold Height in Hbelow. lia. }
  cbn. rewrite Hg'. unfold select_BlockSoonWaiter, run_BlockSoonWaiter.
  rewrite Hpc, Hi, Hich, Hc', He, Hnil, Hh'. cbn. auto.
Qed.

(** C9. The goroutine of [BlockWaiter(H)] has signalled only if the tracked
    height is at least [H]; while the tracked height is below [H] it has
    not signalled and no turn of it signals; and as soon as the tracked
    height is at least [H] (already at the call, or after an update), it is
    not parked and its next turn puts the signal on its channel. *)
Theorem BlockWaiter_wake_correctness w g (b : waiter) :
  reachable w ->
  goroutines w !! g = Some (GoBlockWaiter b) ->
  (signalled b -> waiter_height b <= Height (chain w))
  /\ (Height (chain w) < waiter_height b ->
      ~ signalled b
      /\ waiter_ch b = []
      /\ forall w', step (Run g) w = Some w' ->
           exists b', goroutines w' !! g = Some (GoBlockWaiter b')
                      /\ ~ signalled b' /\ waiter_ch b' = [])
  /\ (waiter_height b <= Height (chain w) ->
      ~ signalled b ->
      parked g (chain w) = false
      /\ step (Run g) w
         = Some (put g (GoBlockWaiter
                          (mkWaiter (waiter_height b) WaiterDone [()])) w)).
Proof.
  intros Hr Hg. unfold signalled, Height.
  pose proof (reachable_world_ok w Hr) as Hok.
  assert (waiter_ok w b) as [Hub Hb] by exact (ok_goroutines w Hok g _ Hg).
  split; [| split].
  - intros Hd. rewrite Hd in Hb. tauto.
  - intros Hlt.
    assert (waiter_at b <> WaiterDone) as Hnd
      by (intros Hd; rewrite Hd in Hb; lia).
    assert (waiter_ch b = []) as Hnil
      by (destruct (waiter_at b); first [assumption | contradiction]).
    repeat (split; [assumption |]).
    intros w' Hstep. cbn in Hstep. rewrite Hg in Hstep.
    apply run_BlockWaiter_Some in Hstep
      as (_ & _ & [[_ ->] | (Hle & _)]); [| lia].
    exists (mkWaiter (waiter_height b) WaiterWait (waiter_ch b)).
    split; [| split; [discriminate | assumption]].
    rewrite goroutines_put. apply list_lookup_insert_eq.
    eapply lookup_lt_Some. exact Hg.
  - intros Hle Hnd.
    assert (waiter_ch b = []) as Hnil
      by (destruct (waiter_at b); first [assumption | contradiction]).
    assert (parked g (chain w) = false) as Hnp.
    { apply parked_false. intros Hin.
      destruct (ok_parked w Hok g Hin) as (b0 & Hg0 & _ & Hlt).
      assert (b0 = b) as -> by congruence. lia. }
    split; [assumption |].
    cbn. rewrite Hg. unfold run_BlockWaiter. rewrite Hnp, Hnil.
    destruct (Z.ltb_spec (state_height (chain w)) (waiter_height b)); [lia |].
    destruct (waiter_at b); first [reflexivity | contradiction].
Qed.

(** C10. The [slop] test adds 3 to [Height()] modulo 2^64.  When the tracked
    height is above 2^64 - 1 - 3 the sum wraps to a value below 3, and there
    is a target height, at most the tracked height, for which the goroutine
    of [BlockSoonWaiter] delivers [ErrTheDistantFuture]. *)
Theorem BlockSoonWaiter_slop_wraps w :
  reachable w ->
  Height (chain w) > uint64_max - 3 ->
  add64 (Height (chain w)) slop = Height (chain w) + 3 - uint64_modulus
  /\ add64 (Height (chain w)) slop < 3
  /\ exists height,
       is_uint64 height
       /\ height <= Height (chain w)
       /\ forall ctx,
            let g := length (goroutines w) in
            let w1 := BlockSoonWaiter ctx height w in
            label_ok (CallBlockSoonWaiter ctx height) = true
            /\ step (CallBlockSoonWaiter ctx height) w = Some w1
            /\ step (Run g) w1
               = Some (put g (GoBlockSoonWaiter
                                (mkSoon ctx height SoonDone
                                        [Some ErrTheDistantFuture])) w1).
Proof.
  intros Hr Hgt.
  pose proof (reachable_world_ok w Hr) as Hok.
  pose proof (ok_height w Hok) as Hu. fold (Height (chain w)) in Hu.
  pose proof (add64_wraps _ Hu Hgt) as Hwrap.
  assert (add64 (Height (chain w)) slop < 3) as Hsmall.
  { rewrite Hwrap. unfold is_uint64, uint64_max in Hu. lia. }
  split; [assumption |]. split; [assumption |].
  exists (Height (chain w)). split; [assumption |]. split; [lia |].
  assert ((Height (chain w) >? add64 (Height (chain w)) slop) = true)
    as Hguard.
  { unfold uint64_max, uint64_modulus in Hgt.
    change (2 ^ 64) with 18446744073709551616 in Hgt. lia. }
  intros ctx g w1. split; [apply uint64b_spec; assumption |].
  split; [reflexivity |].
  unfold step, w1, g, BlockSoonWaiter.
  rewrite goroutines_spawn, list_lookup_middle by reflexivity.
  unfold run_BlockSoonWaiter.
  cbn [soon_at soon_height soon_ch soon_ctx]. rewrite chain_spawn, Hguard.
  reflexivity.
Qed.

(** What a transition does to the chain. *)
Lemma step_chain l w w' :
  step l w = Some w' ->
  chain w' = chain w
  \/ (exists s, chain w' = setState s (chain w))
  \/ (exists h, chain w' = setHeight h (chain w))
  \/ (exists g, chain w' = Wait g (chain w))
  \/ (exists s q,
        chan_send 1 (pendingSnapshots (chain w)) s = Some q
        /\ chain w' = with_pending q (chain w))
  \/ (exists s rest,
        pendingSnapshots (chain w) = s :: rest
        /\ chain w'
           = with_store (store_SaveSnapshot (store (chain w)) s).1
                        (with_pending rest (chain w))).
Proof.
  intros Hstep. destruct l; cbn in Hstep.
  - injection Hstep as <-. right. left. eauto.
  - injection Hstep as <-. right. right. left. eauto.
  - unfold heights_recv in Hstep. destruct (heights_worker w); [| discriminate].
    injection Hstep as <-. right. right. left. eauto.
  - unfold heights_done in Hstep.
    apply bind_Some in Hstep as (? & _ & Hstep).
    apply bind_Some in Hstep as (? & _ & [= <-]). left. reflexivity.
  - unfold queue_snapshot in Hstep.
    apply bind_Some in Hstep as (q & Hq & [= <-]).
    do 4 right. left. eauto.
  - unfold snapshots_recv in Hstep.
    apply bind_Some in Hstep as (? & _ & Hstep).
    apply bind_Some in Hstep as ([s0 rest] & Hrecv & Hstep).
    apply chan_recv_Some in Hrecv. do 5 right. exists s0, rest.
    split; [assumption |].
    destruct (store_SaveSnapshot (store (chain w)) s0) as [st [e |]];
      injection Hstep as <-; reflexivity.
  - unfold snapshots_done in Hstep.
    apply bind_Some in Hstep as (? & _ & Hstep).
    apply bind_Some in Hstep as (? & _ & [= <-]). left. reflexivity.
  - unfold cancel in Hstep.
    destruct (contexts w !! ctx) as [[e0 |] |]; try discriminate.
    injection Hstep as <-. left. reflexivity.
  - injection Hstep as <-. left. reflexivity.
  - injection Hstep as <-. left. reflexivity.
  - destruct (goroutines w !! g) as [[b | b] |]; [| | discriminate].
    + apply run_BlockWaiter_Some in Hstep
        as (_ & _ & [[_ ->] | (_ & ch & _ & ->)]).
      * do 3 right. left. exists g. reflexivity.
      * left. reflexivity.
    + apply run_BlockSoonWaiter_Some in Hstep
        as (_ & [(_ & ch & _ & ->) | (_ & ->)]); left; reflexivity.
  - destruct (goroutines w !! g) as [[b | b] |]; try discriminate.
    apply select_BlockSoonWaiter_Some in Hstep as (inner & _ & Hk).
    destruct k.
    + destruct Hk as (i & v & rest & ch & _ & _ & _ & ->). left. reflexivity.
    + destruct Hk as (e & ch & _ & _ & ->). left. reflexivity.
Qed.

(** Whoever moves, [Height()] does not decrease. *)
Lemma step_Height l w w' :
  step l w = Some w' -> Height (chain w) <= Height (chain w').
Proof.
  unfold Height. intros Hstep.
  destruct (step_chain l w w' Hstep)
    as [-> | [[s ->] | [[h ->] | [[g ->] | [(s & q & _ & ->)
                                           | (s & rest & _ & ->)]]]]]; cbn;
    try lia.
  - apply (apply_update_height (SetState s)).
  - apply (apply_update_height (SetHeight h)).
Qed.

Lemma exec_Height (ls : list label) w w' :
  exec ls w = Some w' -> Height (chain w) <= Height (chain w').
Proof.
  revert w. induction ls as [| l ls IH]; intros w Hex; cbn in Hex.
  - injection Hex as <-. lia.
  - destruct (label_ok l); [| discriminate].
    apply bind_Some in Hex as (w1 & Hstep & Hex).
    etransitivity; [eapply step_Height | eapply IH]; eassumption.
Qed.


(** The second goroutine of [NewChain] takes what is in the slot and hands
    it to [store.SaveSnapshot]; a failure is logged and goes nowhere else. *)
Lemma snapshots_recv_saves w ctx s (rest : list state.Snapshot) :
  snapshots_worker w = Some ctx ->
  pendingSnapshots (chain w) = s :: rest ->
  exists w',
    step SnapshotsRecv w = Some w'
    /\ pendingSnapshots (chain w') = rest
    /\ store (chain w') = (store_SaveSnapshot (store (chain w)) s).1
    /\ logged w'
       = logged w ++ from_option (fun e => [e]) []
                                 (store_SaveSnapshot (store (chain w)) s).2
    /\ state_height (chain w') = state_height (chain w)
    /\ state_snapshot (chain w') = state_snapshot (chain w).
Proof.
  intros Hw Hq. cbn. unfold snapshots_recv. rewrite Hw, Hq. cbn.
  destruct (store_SaveSnapshot (store (chain w)) s) as [st [e |]]; cbn;
    eexists; (split; [reflexivity |]); cbn; rewrite ?app_nil_r; auto.
Qed.

End Program.

(** ** The theorems at work *)

Lemma world_at_NewChain (h : Z) :
  NewChain [None; None] 0 genesis (store_at h) true = inl (world_at h).
Proof. reflexivity. Qed.

Lemma world_at_reachable (h : Z) : is_uint64 h -> reachable (world_at h).
Proof.
  intros Hh.
  apply (reachable_NewChain [None; None] 0%nat genesis (store_at h) true h);
    [reflexivity | assumption | apply world_at_NewChain].
Qed.

Lemma is_uint64_10 : is_uint64 10.
Proof. apply uint64b_spec. reflexivity. Qed.

Lemma is_uint64_max : is_uint64 uint64_max.
Proof. apply uint64b_spec. reflexivity. Qed.

Lemma after_reachable (ls : list label) (w w' : World MemStore) :
  reachable w -> exec ls w = Some w' -> reachable (after ls w).
Proof.
  intros Hr Hex. unfold after. rewrite Hex. cbn.
  eapply exec_reachable; eassumption.
Qed.

Lemma is_uint64_0 : is_uint64 0.
Proof. apply uint64b_spec. reflexivity. Qed.

Lemma world_10_7_reachable : reachable world_10_7.
Proof.
  eapply after_reachable;
    [apply world_at_reachable, is_uint64_0 | reflexivity].
Qed.

(** At height 10 with the snapshot of height 7, [setState] takes the snapshot
    of height 12 and the height becomes 12. *)
Lemma setState_replaces_snapshot_witness :
  state.Height snapshot_12 > state.Height (State chain_10_7)
  /\ State (setState snapshot_12 chain_10_7) = snapshot_12
  /\ Height (setState snapshot_12 chain_10_7) = 12.
Proof.
  assert (state.Height snapshot_12 > state.Height (State chain_10_7)) as Hgt
    by reflexivity.
  split; [exact Hgt |].
  destruct (setState_replaces_snapshot snapshot_12 chain_10_7 Hgt)
    as (Hs & Hh & _).
  split; [exact Hs | exact Hh].
Defined.

(** With the snapshot of height 7 in place, the empty snapshot is ignored. *)
Lemma setState_ignores_stale_witness :
  state.Height state.Empty <= state.Height (State chain_10_7)
  /\ setState state.Empty chain_10_7 = chain_10_7.
Proof.
  assert (state.Height state.Empty <= state.Height (State chain_10_7)) as Hle
    by (vm_compute; discriminate).
  split; [exact Hle |].
  exact (proj1 (setState_ignores_stale state.Empty chain_10_7 Hle)).
Defined.

(** A chain started at height 10, after three calls of the writers. *)
Lemma snapshot_height_at_most_Height_witness :
  let us := [SetState snapshot_12; SetHeight 20; SetState snapshot_9] in
  state.Height (State (apply_updates us (chain (world_at 10))))
  <= Height (apply_updates us (chain (world_at 10))).
Proof.
  intros us.
  exact (proj2 (proj2 (proj2
    (snapshot_height_at_most_Height [None; None] 0%nat genesis (store_at 10)
       true 10 (world_at 10) us eq_refl is_uint64_10 (world_at_NewChain 10))))).
Defined.

(** C6 as stated fails.  At height 10 with the snapshot of height 7 and
    goroutine 0 parked, [setState] accepts the snapshot of height 9 without a
    [Broadcast] (goroutine 0 stays parked) and without a send on
    [pendingSnapshots]; it accepts the snapshot of height 12 with a
    [Broadcast] and still sends nothing. *)
Lemma setState_accept_without_wake_or_queue :
  reachable world_10_7
  /\ Height chain_10_7 = 10
  /\ State chain_10_7 = snapshot_7
  /\ (accepts snapshot_9 chain_10_7
   /\ State (setState snapshot_9 chain_10_7) = snapshot_9
   /\ ~ wakes_all chain_10_7 (setState snapshot_9 chain_10_7)
   /\ cond_parked (state_cond (setState snapshot_9 chain_10_7)) = [0%nat]
   /\ ~ enqueues snapshot_9 chain_10_7 (setState snapshot_9 chain_10_7))
  /\ (accepts snapshot_12 chain_10_7
      /\ wakes_all chain_10_7 (setState snapshot_12 chain_10_7)
      /\ pendingSnapshots (setState snapshot_12 chain_10_7) = []
      /\ ~ enqueues snapshot_12 chain_10_7 (setState snapshot_12 chain_10_7)).
Proof.
  split; [exact world_10_7_reachable |].
  unfold accepts, wakes_all, enqueues. vm_compute.
  repeat split; intros; intuition discriminate.
Qed.

(** Accepting the snapshot of height 9 at height 10 leaves the slot alone. *)
Lemma setState_accept_effects_witness :
  accepts snapshot_9 chain_10_7
  /\ State (setState snapshot_9 chain_10_7) = snapshot_9
  /\ pendingSnapshots (setState snapshot_9 chain_10_7)
     = pendingSnapshots chain_10_7.
Proof.
  assert (accepts snapshot_9 chain_10_7) as Hacc by reflexivity.
  split; [exact Hacc |].
  destruct (setState_accept_effects snapshot_9 chain_10_7 Hacc)
    as (Hs & Hq & _).
  split; [exact Hs | exact Hq].
Defined.

Lemma world_soon_100_reachable : reachable world_soon_100.
Proof.
  eapply after_reachable;
    [apply world_at_reachable, is_uint64_10 | reflexivity].
Qed.

Lemma world_soon_12_reachable : reachable world_soon_12.
Proof.
  eapply after_reachable;
    [apply world_at_reachable, is_uint64_10 | reflexivity].
Qed.

Lemma world_wake_15_reachable : reachable world_wake_15.
Proof.
  eapply after_reachable;
    [apply world_at_reachable, is_uint64_10 | reflexivity].
Qed.

(** Height 10, target 100: the error, at once. *)
Lemma BlockSoonWaiter_distant_future_witness :
  reachable world_soon_100
  /\ 100 > Height (chain world_soon_100) + 3
  /\ step (Run 0%nat) world_soon_100
     = Some (put 0%nat
                 (GoBlockSoonWaiter
                    (mkSoon 1 100 SoonDone [Some ErrTheDistantFuture]))
                 world_soon_100).
Proof.
  assert (100 > Height (chain world_soon_100) + 3) as Hgt by reflexivity.
  split; [exact world_soon_100_reachable |]. split; [exact Hgt |].
  exact (proj1 (BlockSoonWaiter_distant_future world_soon_100 0%nat
                  (mkSoon 1 100 SoonCheck [])
                  world_soon_100_reachable eq_refl eq_refl Hgt)).
Defined.

(** C8 as stated fails.  From height 10, [BlockSoonWaiter(ctx, 12)] passes
    the [slop] test (12 is at most 10 + 3) and starts its [BlockWaiter]
    goroutine.  The context is cancelled while the tracked height is still
    10; then height 12 arrives and the [BlockWaiter] goroutine signals, all
    before the [select] is evaluated.  Both cases of the [select] can
    proceed, and when it takes the one of the [BlockWaiter] channel the
    result channel holds [nil], not [ctx.Err()]. *)
Lemma BlockSoonWaiter_cancel_loses_race :
  exists w1 w2 w3 : World MemStore,
    reachable (world_at 10)
    /\ 12 <= add64 (Height (chain (world_at 10))) slop
    /\ 12 <= Height (chain (world_at 10)) + 3
    /\ exec [CallBlockSoonWaiter 1 12; Run 0%nat] (world_at 10) = Some w1
    /\ Height (chain w1) < 12
    /\ ctx_Err w1 1 = None
    /\ step (Cancel 1 Canceled) w1 = Some w2
    /\ ctx_Err w2 1 = Some Canceled
    /\ Height (chain w2) < 12
    /\ exec [CallSetHeight 12; Run 1%nat; Select 0%nat CaseBlockWaiter] w2
       = Some w3
    /\ goroutines w3 !! 0%nat
       = Some (GoBlockSoonWaiter (mkSoon 1 12 SoonDone [None]))
    /\ [None] <> [Some (Err Canceled)].
Proof.
  exists (after [CallBlockSoonWaiter 1 12; Run 0%nat] (world_at 10)).
  exists (after [CallBlockSoonWaiter 1 12; Run 0%nat; Cancel 1 Canceled]
                (world_at 10)).
  exists (after [CallBlockSoonWaiter 1 12; Run 0%nat; Cancel 1 Canceled;
                 CallSetHeight 12; Run 1%nat; Select 0%nat CaseBlockWaiter]
                (world_at 10)).
  split; [apply world_at_reachable, is_uint64_10 |].
  split; [vm_compute; discriminate |].
  split; [vm_compute; discriminate |].
  repeat split; try reflexivity. discriminate.
Qed.

(** Height 10, target 12, the context cancelled after the [slop] test: the
    result channel holds no [ErrTheDistantFuture]. *)
Lemma BlockSoonWaiter_cancellation_witness :
  reachable world_soon_12
  /\ 12 <= add64 (Height (chain world_soon_12)) slop
  /\ exec [Run 0%nat; Cancel 1 Canceled] world_soon_12
     = Some (after [Run 0%nat; Cancel 1 Canceled] world_soon_12)
  /\ exists b',
       goroutines (after [Run 0%nat; Cancel 1 Canceled] world_soon_12) !! 0%nat
       = Some (GoBlockSoonWaiter b')
       /\ Some ErrTheDistantFuture ∉ soon_ch b'.
Proof.
  assert (12 <= add64 (Height (chain world_soon_12)) slop) as Hle
    by (vm_compute; discriminate).
  assert (exec [Run 0%nat; Cancel 1 Canceled] world_soon_12
          = Some (after [Run 0%nat; Cancel 1 Canceled] world_soon_12)) as Hex
    by reflexivity.
  split; [exact world_soon_12_reachable |]. split; [exact Hle |].
  split; [exact Hex |].
  destruct (BlockSoonWaiter_cancellation world_soon_12 0%nat
              (mkSoon 1 12 SoonCheck []) [Cancel 1 Canceled]
              (after [Run 0%nat; Cancel 1 Canceled] world_soon_12)
              world_soon_12_reachable eq_refl eq_refl Hle Hex)
    as (b' & Hg & _ & _ & Hch & _).
  exists b'. split; [exact Hg | exact Hch].
Defined.

(** The wait for height 15 that parked at height 10 signals on its next turn
    once height 15 has arrived. *)
Lemma BlockWaiter_wake_correctness_witness :
  reachable world_wake_15
  /\ goroutines world_wake_15 !! 0%nat
     = Some (GoBlockWaiter (mkWaiter 15 WaiterWait []))
  /\ step (Run 0%nat) world_wake_15
     = Some (put 0%nat (GoBlockWaiter (mkWaiter 15 WaiterDone [()]))
                 world_wake_15).
Proof.
  split; [exact world_wake_15_reachable |]. split; [reflexivity |].
  destruct (BlockWaiter_wake_correctness world_wake_15 0%nat
              (mkWaiter 15 WaiterWait []) world_wake_15_reachable eq_refl)
    as (_ & _ & Hwake).
  apply Hwake.
  - vm_compute. discriminate.
  - unfold signalled. cbn. discriminate.
Defined.

(** At the largest height the sum wraps to 2. *)
Lemma BlockSoonWaiter_slop_wraps_witness :
  reachable (world_at uint64_max)
  /\ Height (chain (world_at uint64_max)) > uint64_max - 3
  /\ add64 (Height (chain (world_at uint64_max))) slop = 2.
Proof.
  assert (reachable (world_at uint64_max)) as Hr
    by (apply world_at_reachable, is_uint64_max).
  assert (Height (chain (world_at uint64_max)) > uint64_max - 3) as Hgt
    by reflexivity.
  split; [exact Hr |]. split; [exact Hgt |].
  rewrite (proj1 (BlockSoonWaiter_slop_wraps (world_at uint64_max) Hr Hgt)).
  reflexivity.
Defined.

(** ** Runs of the program *)

(** At height 10, [BlockWaiter(10)] signals on its first turn. *)
Example wait_for_reached_height :
  (w ← exec [CallBlockWaiter 10; Run 0%nat] (world_at 10); goroutines w !! 0%nat)
  = Some (GoBlockWaiter (mkWaiter 10 WaiterDone [()])).
Proof. reflexivity. Qed.

(** At height 10, [BlockWaiter(15)] parks, and cannot move while parked;
    [setHeight(15)] wakes it and its next turn signals. *)
Example wait_then_wake :
  (w ← exec [CallBlockWaiter 15; Run 0%nat] (world_at 10); step (Run 0%nat) w)
  = None
  /\ (w ← exec [CallBlockWaiter 15; Run 0%nat; HeightsRecv 15; Run 0%nat]
                (world_at 10);
      goroutines w !! 0%nat)
     = Some (GoBlockWaiter (mkWaiter 15 WaiterDone [()])).
Proof. split; reflexivity. Qed.

(** At height 10, a wake-up for height 12 sends the wait for height 15 back
    to [Wait]. *)
Example woken_too_early_parks_again :
  (w ← exec [CallBlockWaiter 15; Run 0%nat; CallSetHeight 12; Run 0%nat]
             (world_at 10);
   Some (cond_parked (state_cond (chain w)), goroutines w !! 0%nat))
  = Some ([0%nat], Some (GoBlockWaiter (mkWaiter 15 WaiterWait []))).
Proof. reflexivity. Qed.

(** With the snapshot of height 7 in place, one of height 5 is ignored. *)
Example stale_snapshot_ignored :
  setState (state.mkSnapshot 50 5) chain_10_7 = chain_10_7.
Proof. reflexivity. Qed.

(** From height 10, heights 20 and 15 in either order leave height 20. *)
Example heights_in_either_order :
  Height (setHeight 15 (setHeight 20 (chain (world_at 10)))) = 20
  /\ Height (setHeight 20 (setHeight 15 (chain (world_at 10)))) = 20.
Proof. split; reflexivity. Qed.

(** The context cancelled, the height still short: the [select] of
    [BlockSoonWaiter(ctx, 12)] delivers [context.Canceled]. *)
Example cancelled_wait :
  (w ← exec [CallBlockSoonWaiter 1 12; Run 0%nat; Cancel 1 Canceled;
             Select 0%nat CaseDone] (world_at 10);
   goroutines w !! 0%nat)
  = Some (GoBlockSoonWaiter (mkSoon 1 12 SoonDone [Some (Err Canceled)])).
Proof. reflexivity. Qed.

(** A snapshot put in the slot is saved by the worker; a second one does not
    fit while the first is there. *)
Example slot_of_one :
  (w ← exec [QueueSnapshot snapshot_9; SnapshotsRecv] (world_at 10);
   Some (mem_snapshots (store (chain w)), pendingSnapshots (chain w)))
  = Some ([snapshot_9], [])
  /\ exec [QueueSnapshot snapshot_9; QueueSnapshot snapshot_12] (world_at 10)
     = None.
Proof. split; reflexivity. Qed.

(** [NewChain] fails when the store cannot tell its height. *)
Example NewChain_store_failure :
  NewChain [None] 0 genesis (mkMemStore (inr (StoreFailure 1)) None [] []) false
  = inr (Wrap (StoreFailure 1) "looking up blockchain height").
Proof. reflexivity. Qed.

(** ** How the calls of the writers compose *)

Section Composition.
Context {S : Type} `{!Store S}.
Implicit Types (c : Chain S) (s : state.Snapshot) (h : Z) (u : update).

Lemma apply_update_Height_max u c :
  snapshot_behind c ->
  Height (apply_update u c) = Z.max (Height c) (update_height u).
Proof.
  unfold snapshot_behind, Height. intros Hinv. destruct u as [s | h]; cbn.
  - unfold setState.
    destruct (Z.leb_spec (state.Height s) (state.Height (state_snapshot c)));
      [lia |].
    cbn. destruct (Z.gtb_spec (state.Height s) (state_height c)); cbn; lia.
  - rewrite setHeight_height. reflexivity.
Qed.

Lemma apply_update_snapshot_behind u c :
  snapshot_behind c -> snapshot_behind (apply_update u c).
Proof.
  destruct u; cbn;
    [apply setState_snapshot_behind | apply setHeight_snapshot_behind].
Qed.

Lemma apply_update_snapshot_height u c :
  state.Height (State (apply_update u c))
  = match u with
    | SetState s => Z.max (state.Height (State c)) (state.Height s)
    | SetHeight _ => state.Height (State c)
    end.
Proof.
  unfold State. destruct u as [s | h]; cbn.
  - unfold setState.
    destruct (Z.leb_spec (state.Height s) (state.Height (state_snapshot c)));
      [lia |].
    cbn. destruct (Z.gtb_spec (state.Height s) (state_height c)); cbn; lia.
  - unfold setHeight. destruct (h <=? state_height c); reflexivity.
Qed.

Lemma max_height_Permutation (us vs : list update) :
  Permutation us vs -> forall h0, max_height h0 us = max_height h0 vs.
Proof.
  unfold max_height.
  induction 1 as [| x l l' _ IH | x y l | l l' l'' _ IH1 _ IH2]; intros h0;
    cbn.
  - reflexivity.
  - apply IH.
  - f_equal. lia.
  - rewrite IH1. apply IH2.
Qed.

Lemma max_snapshot_height_Permutation (us vs : list update) :
  Permutation us vs ->
  forall h0, max_snapshot_height h0 us = max_snapshot_height h0 vs.
Proof.
  unfold max_snapshot_height.
  induction 1 as [| x l l' _ IH | x y l | l l' l'' _ IH1 _ IH2]; intros h0;
    cbn.
  - reflexivity.
  - apply IH.
  - f_equal. destruct x, y; lia.
  - rewrite IH1. apply IH2.
Qed.

Lemma apply_updates_snapshot_height (us : list update) c :
  state.Height (State (apply_updates us c))
  = max_snapshot_height (state.Height (State c)) us.
Proof.
  revert c. induction us as [| u us IH]; intros c; [reflexivity |].
  cbn. change (fold_left _ us (apply_update u c))
    with (apply_updates us (apply_update u c)).
  rewrite IH, apply_update_snapshot_height.
  destruct u; reflexivity.
Qed.

(** X1. A call of a writer repeated changes nothing more: the second
    [setState s] or [setHeight h] finds its argument no longer ahead and
    returns at once, without a second [Broadcast]. *)
Theorem writers_idempotent u c :
  apply_update u (apply_update u c) = apply_update u c.
Proof.
  destruct u as [s | h]; cbn.
  - apply setState_stale. unfold setState.
    destruct (Z.leb_spec (state.Height s) (state.Height (state_snapshot c)));
      [assumption |].
    cbn. destruct (state.Height s >? state_height c); cbn; lia.
  - unfold setHeight at 1.
    destruct (Z.leb_spec h (state_height (setHeight h c))) as [_ | Hlt];
      [reflexivity |].
    rewrite setHeight_height in Hlt. lia.
Qed.

(** X2. No height is lost.  Starting from a chain whose snapshot is not
    ahead of its height (as after [NewChain]), after any sequence of
    [setState] and [setHeight] calls [Height()] is the largest of the
    initial height and of all the heights the calls brought, whether a
    snapshot was accepted or discarded. *)
Theorem Height_is_max_of_updates (us : list update) c :
  snapshot_behind c ->
  Height (apply_updates us c) = max_height (Height c) us.
Proof.
  revert c. induction us as [| u us IH]; intros c Hinv; [reflexivity |].
  cbn. change (fold_left _ us (apply_update u c))
    with (apply_updates us (apply_update u c)).
  rewrite IH by (apply apply_update_snapshot_behind; assumption).
  rewrite apply_update_Height_max by assumption. reflexivity.
Qed.

(** X3. The order of the calls does not matter to the heights.  Two
    sequences holding the same calls in different orders leave the same
    [Height()] and a tracked snapshot of the same height. *)
Theorem heights_independent_of_order (us vs : list update) c :
  snapshot_behind c ->
  Permutation us vs ->
  Height (apply_updates us c) = Height (apply_updates vs c)
  /\ state.Height (State (apply_updates us c))
     = state.Height (State (apply_updates vs c)).
Proof.
  intros Hinv Hperm. split.
  - rewrite !Height_is_max_of_updates by assumption.
    apply max_height_Permutation. assumption.
  - rewrite !apply_updates_snapshot_height.
    apply max_snapshot_height_Permutation. assumption.
Qed.

(** X4. The tracked snapshot after any sequence of calls is the initial one
    or one that a [setState] of the sequence brought, and its height is the
    largest of the initial snapshot height and of the heights of all the
    snapshots brought: it never goes back. *)
Theorem State_is_highest_snapshot (us : list update) c :
  (State (apply_updates us c) = State c
   \/ SetState (State (apply_updates us c)) ∈ us)
  /\ state.Height (State (apply_updates us c))
     = max_snapshot_height (state.Height (State c)) us
  /\ state.Height (State c) <= state.Height (State (apply_updates us c)).
Proof.
  split; [| split].
  - revert c. induction us as [| u us IH]; intros c; [now left |].
    cbn. change (fold_left _ us (apply_update u c))
      with (apply_updates us (apply_update u c)).
    destruct (IH (apply_update u c)) as [-> | Hin].
    + destruct u as [s | h]; cbn.
      * unfold State, setState.
        destruct (state.Height s <=? state.Height (state_snapshot c));
          [now left |].
        right. cbn.
        destruct (state.Height s >? state_height c); cbn; apply list_elem_of_here.
      * left. unfold State, setHeight.
        destruct (h <=? state_height c); reflexivity.
    + right. apply list_elem_of_further. assumption.
  - apply apply_updates_snapshot_height.
  - rewrite apply_updates_snapshot_height. generalize (state.Height (State c)).
    induction us as [| u us IH]; intros z; cbn; [lia |].
    etransitivity; [| apply IH]. destruct u; lia.
Qed.

(** X5. Of two snapshots submitted in either order, the higher one stays.
    When [sB] is higher than [sA] and than the current snapshot, both
    [setState sA; setState sB] and [setState sB; setState sA] end with [sB]
    as the tracked snapshot, and with the same [Height()]. *)
Theorem higher_snapshot_wins (sA sB : state.Snapshot) c :
  state.Height sA < state.Height sB ->
  state.Height (State c) < state.Height sB ->
  State (setState sB (setState sA c)) = sB
  /\ State (setState sA (setState sB c)) = sB
  /\ Height (setState sB (setState sA c)) = Height (setState sA (setState sB c)).
Proof.
  unfold State, Height. intros Hab Hcb.
  assert (state.Height (state_snapshot (setState sA c)) < state.Height sB)
    as HA.
  { unfold setState.
    destruct (Z.leb_spec (state.Height sA) (state.Height (state_snapshot c)));
      [assumption |].
    cbn. destruct (state.Height sA >? state_height c); cbn; assumption. }
  assert (state_snapshot (setState sB c) = sB
          /\ state_height (setState sB c)
             = Z.max (state_height c) (state.Height sB)) as [HB HBh].
  { rewrite setState_fresh by assumption.
    destruct (Z.gtb_spec (state.Height sB) (state_height c)); cbn;
      split; reflexivity || lia. }
  rewrite (setState_stale sA (setState sB c)) by (rewrite HB; lia).
  rewrite (setState_fresh sB (setState sA c)) by assumption.
  split; [| split; [assumption |]].
  - destruct (state.Height sB >? state_height (setState sA c)); reflexivity.
  - rewrite HBh.
    destruct (setState_height sA c) as [Heq | [Hlt Heq]]; rewrite Heq;
      destruct (Z.gtb_spec (state.Height sB) (state_height c)); cbn;
      try (destruct (Z.gtb_spec (state.Height sB) (state.Height sA)); cbn);
      lia.
Qed.

(** X6. A writer broadcasts exactly when it raises the height.  If a call
    of [setState] or [setHeight] raises [Height()], one [Broadcast] ran and
    nobody is left parked; if it leaves [Height()] as it was, the condition
    is untouched (no goroutine is woken). *)
Theorem Broadcast_iff_Height_raised u c :
  (Height c < Height (apply_update u c) -> wakes_all c (apply_update u c))
  /\ (Height (apply_update u c) = Height c ->
      state_cond (apply_update u c) = state_cond c).
Proof.
  unfold Height, wakes_all. destruct u as [s | h]; cbn.
  - unfold setState.
    destruct (Z.leb_spec (state.Height s) (state.Height (state_snapshot c)));
      [split; [lia | reflexivity] |].
    cbn. destruct (Z.gtb_spec (state.Height s) (state_height c)); cbn;
      split; intros; lia || auto.
  - unfold setHeight. destruct (Z.leb_spec h (state_height c)); cbn;
      split; intros; lia || auto.
Qed.

End Composition.

(** ** Goroutines, workers and contexts together *)

Section Coordination.
Context {S : Type} `{!Store S}.
Implicit Types (c : Chain S) (w : World S) (s : state.Snapshot) (h : Z).
Implicit Types (g : nat) (l : label).

(** A transition, label by label. *)
Lemma step_inv l w w' :
  step l w = Some w' ->
  match l with
  | CallSetState s => w' = on_chain (setState s) w
  | CallSetHeight h => w' = on_chain (setHeight h) w
  | HeightsRecv h =>
      is_Some (heights_worker w) /\ w' = on_chain (setHeight h) w
  | HeightsDone =>
      exists ctx e, heights_worker w = Some ctx /\ ctx_Err w ctx = Some e
                    /\ w' = with_heights_worker None w
  | QueueSnapshot s =>
      exists q, chan_send 1 (pendingSnapshots (chain w)) s = Some q
                /\ w' = on_chain (with_pending q) w
  | SnapshotsRecv =>
      exists ctx s rest,
        snapshots_worker w = Some ctx
        /\ pendingSnapshots (chain w) = s :: rest
        /\ let w1 := on_chain
                       (fun c => with_store
                                   (store_SaveSnapshot (store (chain w)) s).1
                                   (with_pending rest c)) w in
           w' = match (store_SaveSnapshot (store (chain w)) s).2 with
                | Some e => with_logged (logged w1 ++ [e]) w1
                | None => w1
                end
  | SnapshotsDone =>
      exists ctx e, snapshots_worker w = Some ctx /\ ctx_Err w ctx = Some e
                    /\ w' = with_snapshots_worker None w
  | Cancel ctx e =>
      contexts w !! ctx = Some None
      /\ w' = with_contexts (<[ctx := Some e]> (contexts w)) w
  | CallBlockWaiter height => w' = BlockWaiter height w
  | CallBlockSoonWaiter ctx height => w' = BlockSoonWaiter ctx height w
  | Run g =>
      (exists b, goroutines w !! g = Some (GoBlockWaiter b)
                 /\ run_BlockWaiter g b w = Some w')
      \/ (exists b, goroutines w !! g = Some (GoBlockSoonWaiter b)
                    /\ run_BlockSoonWaiter g b w = Some w')
  | Select g k =>
      exists b, goroutines w !! g = Some (GoBlockSoonWaiter b)
                /\ select_BlockSoonWaiter g b k w = Some w'
  end.
Proof.
  intros Hstep. destruct l; cbn in Hstep.
  - congruence.
  - congruence.
  - unfold heights_recv in Hstep.
    destruct (heights_worker w) eqn:Hw; [| discriminate].
    split; [eauto | congruence].
  - unfold heights_done in Hstep.
    apply bind_Some in Hstep as (ctx & Hw & Hstep).
    apply bind_Some in Hstep as (e & He & [= <-]). eauto.
  - unfold queue_snapshot in Hstep.
    apply bind_Some in Hstep as (q & Hq & [= <-]). eauto.
  - unfold snapshots_recv in Hstep.
    apply bind_Some in Hstep as (ctx & Hw & Hstep).
    apply bind_Some in Hstep as ([s0 rest] & Hrecv & Hstep).
    apply chan_recv_Some in Hrecv. exists ctx, s0, rest.
    split; [assumption |]. split; [assumption |].
    destruct (store_SaveSnapshot (store (chain w)) s0) as [st [e |]];
      injection Hstep as <-; reflexivity.
  - unfold snapshots_done in Hstep.
    apply bind_Some in Hstep as (ctx & Hw & Hstep).
    apply bind_Some in Hstep as (e & He & [= <-]). eauto.
  - unfold cancel in Hstep.
    destruct (contexts w !! ctx) as [[e0 |] |]; try discriminate.
    split; [reflexivity | congruence].
  - congruence.
  - congruence.
  - destruct (goroutines w !! g) as [[b | b] |]; [| | discriminate]; eauto.
  - destruct (goroutines w !! g) as [[b | b] |]; try discriminate. eauto.
Qed.

(** A context that is done stays done, with the same error. *)
Lemma step_ctx_Err l w w' ctx (e : ctx_err) :
  step l w = Some w' -> ctx_Err w ctx = Some e -> ctx_Err w' ctx = Some e.
Proof.
  intros Hstep He. apply step_inv in Hstep. destruct l.
  - subst w'. exact He.
  - subst w'. exact He.
  - destruct Hstep as [_ ->]. exact He.
  - destruct Hstep as (? & ? & _ & _ & ->). exact He.
  - destruct Hstep as (? & _ & ->). exact He.
  - destruct Hstep as (? & s0 & ? & _ & _ & Hw'). cbn in Hw'.
    destruct ((store_SaveSnapshot (store (chain w)) s0).2); subst w'; exact He.
  - destruct Hstep as (? & ? & _ & _ & ->). exact He.
  - destruct Hstep as [Hlive ->]. unfold ctx_Err in *. cbn.
    destruct (decide (ctx0 = ctx)) as [-> | Hne].
    + rewrite Hlive in He. discriminate.
    + rewrite list_lookup_insert_ne by assumption. exact He.
  - subst w'. exact He.
  - subst w'. exact He.
  - destruct Hstep as [(b & _ & Hrun) | (b & _ & Hrun)].
    + apply run_BlockWaiter_Some in Hrun
        as (_ & _ & [[_ ->] | (_ & ch & _ & ->)]); exact He.
    + apply run_BlockSoonWaiter_Some in Hrun
        as (_ & [(_ & ch & _ & ->) | (_ & ->)]); exact He.
  - destruct Hstep as (b & _ & Hsel).
    apply select_BlockSoonWaiter_Some in Hsel as (inner & _ & Hk).
    destruct k.
    + destruct Hk as (i & v & rest & ch & _ & _ & _ & ->). exact He.
    + destruct Hk as (e' & ch & _ & _ & ->). exact He.
Qed.

(** The goroutines of [NewChain] only ever leave, and only when their
    context is done. *)
Lemma step_workers l w w' :
  step l w = Some w' ->
  (heights_worker w' = heights_worker w
   \/ (heights_worker w' = None
       /\ exists ctx, heights_worker w = Some ctx /\ is_Some (ctx_Err w ctx)))
  /\ (snapshots_worker w' = snapshots_worker w
      \/ (snapshots_worker w' = None
          /\ exists ctx, snapshots_worker w = Some ctx
                         /\ is_Some (ctx_Err w ctx))).
Proof.
  intros Hstep. apply step_inv in Hstep. destruct l.
  - subst w'. auto.
  - subst w'. auto.
  - destruct Hstep as [_ ->]. auto.
  - destruct Hstep as (ctx & e & Hw & He & ->). split; [right | left]; eauto.
  - destruct Hstep as (? & _ & ->). auto.
  - destruct Hstep as (? & s0 & ? & _ & _ & Hw'). cbn in Hw'.
    destruct ((store_SaveSnapshot (store (chain w)) s0).2); subst w'; auto.
  - destruct Hstep as (ctx & e & Hw & He & ->). split; [left | right]; eauto.
  - destruct Hstep as [_ ->]. auto.
  - subst w'. auto.
  - subst w'. auto.
  - destruct Hstep as [(b & _ & Hrun) | (b & _ & Hrun)].
    + apply run_BlockWaiter_Some in Hrun
        as (_ & _ & [[_ ->] | (_ & ch & _ & ->)]); auto.
    + apply run_BlockSoonWaiter_Some in Hrun
        as (_ & [(_ & ch & _ & ->) | (_ & ->)]); auto.
  - destruct Hstep as (b & _ & Hsel).
    apply select_BlockSoonWaiter_Some in Hsel as (inner & _ & Hk).
    destruct k.
    + destruct Hk as (i & v & rest & ch & _ & _ & _ & ->). auto.
    + destruct Hk as (e' & ch & _ & _ & ->). auto.
Qed.

(** X7. Only the writers touch the tracker.  A transition that is not a
    call of [setState] or [setHeight] (a turn of a waiter goroutine, a
    [select], a cancellation, the persistence goroutine, a new waiter)
    leaves [Height()] and [State()] as they were and runs no [Broadcast]. *)
Theorem only_writers_move_the_tracker l w w' :
  step l w = Some w' ->
  writer_label l = false ->
  Height (chain w') = Height (chain w)
  /\ State (chain w') = State (chain w)
  /\ cond_broadcasts (state_cond (chain w'))
     = cond_broadcasts (state_cond (chain w)).
Proof.
  intros Hstep Hl. apply step_inv in Hstep.
  destruct l; try discriminate Hl.
  - destruct Hstep as (? & ? & _ & _ & ->). auto.
  - destruct Hstep as (? & _ & ->). auto.
  - destruct Hstep as (? & s0 & ? & _ & _ & Hw'). cbn in Hw'.
    destruct ((store_SaveSnapshot (store (chain w)) s0).2); subst w'; auto.
  - destruct Hstep as (? & ? & _ & _ & ->). auto.
  - destruct Hstep as [_ ->]. auto.
  - subst w'. auto.
  - subst w'. auto.
  - destruct Hstep as [(b & _ & Hrun) | (b & _ & Hrun)].
    + apply run_BlockWaiter_Some in Hrun
        as (_ & _ & [[_ ->] | (_ & ch & _ & ->)]); auto.
    + apply run_BlockSoonWaiter_Some in Hrun
        as (_ & [(_ & ch & _ & ->) | (_ & ->)]); auto.
  - destruct Hstep as (b & _ & Hsel).
    apply select_BlockSoonWaiter_Some in Hsel as (inner & _ & Hk).
    destruct k.
    + destruct Hk as (i & v & rest & ch & _ & _ & _ & ->). auto.
    + destruct Hk as (e' & ch & _ & _ & ->). auto.
Qed.


Lemma exec_workers (ls : list label) w1 w ctx (heights : bool) :
  exec ls w1 = Some w ->
  (heights_worker w1 = (if heights then Some ctx else None)
   \/ (heights_worker w1 = None /\ is_Some (ctx_Err w1 ctx)))
  /\ (snapshots_worker w1 = Some ctx
      \/ (snapshots_worker w1 = None /\ is_Some (ctx_Err w1 ctx))) ->
  (heights_worker w = (if heights then Some ctx else None)
   \/ (heights_worker w = None /\ is_Some (ctx_Err w ctx)))
  /\ (snapshots_worker w = Some ctx
      \/ (snapshots_worker w = None /\ is_Some (ctx_Err w ctx))).
Proof.
  revert w1. induction ls as [| l ls IH]; intros w1 Hex Hinit; cbn in Hex.
  - injection Hex as <-. exact Hinit.
  - destruct (label_ok l); [| discriminate].
    apply bind_Some in Hex as (w2 & Hstep & Hex).
    apply (IH w2 Hex). clear IH Hex.
    destruct Hinit as [Hh Hs].
    destruct (step_workers l w1 w2 Hstep) as [Hh' Hs'].
    assert (is_Some (ctx_Err w1 ctx) -> is_Some (ctx_Err w2 ctx)) as Hstay.
    { intros [e He]. exists e. apply (step_ctx_Err l w1); assumption. }
    split.
    + destruct Hh as [Hh | [Hh Hdone]].
      * destruct Hh' as [-> | (-> & c0 & Hc0 & Hdone)]; [now left |].
        right. split; [reflexivity |]. apply Hstay.
        rewrite Hh in Hc0. destruct heights; [| discriminate].
        injection Hc0 as <-. assumption.
      * right. destruct Hh' as [-> | (-> & _)]; auto.
    + destruct Hs as [Hs | [Hs Hdone]].
      * destruct Hs' as [-> | (-> & c0 & Hc0 & Hdone)]; [now left |].
        right. split; [reflexivity |]. apply Hstay.
        rewrite Hs in Hc0. injection Hc0 as <-. assumption.
      * right. destruct Hs' as [-> | (-> & _)]; auto.
Qed.

(** X9. The two goroutines of [NewChain] live with its context.  Along any
    run after [NewChain]: without a [heights] channel no goroutine reads
    heights, ever; with one, the goroutine is there on the context of
    [NewChain] or has left with that context done; and so for the
    persistence goroutine, which is always started. *)
Theorem workers_live_with_context
    ctxs ctx initialBlock (st : S) heights w0 (ls : list label) w :
  NewChain ctxs ctx initialBlock st heights = inl w0 ->
  exec ls w0 = Some w ->
  (heights = false ->
   heights_worker w = None /\ forall h, step (HeightsRecv h) w = None)
  /\ (heights = true ->
      heights_worker w = Some ctx
      \/ (heights_worker w = None /\ is_Some (ctx_Err w ctx)))
  /\ (snapshots_worker w = Some ctx
      \/ (snapshots_worker w = None /\ is_Some (ctx_Err w ctx))).
Proof.
  intros Hnew Hex.
  destruct (exec_workers ls w0 w ctx heights Hex) as [Hh Hs].
  { apply NewChain_inl in Hnew as (h0 & _ & ->). cbn. auto. }
  split; [| split; [| exact Hs]].
  - intros ->. assert (heights_worker w = None) as Hnone
      by (destruct Hh as [? | [? _]]; assumption).
    split; [assumption |]. intros h. cbn. unfold heights_recv.
    rewrite Hnone. reflexivity.
  - intros ->. exact Hh.
Qed.

Lemma result_sound_mono w w' (b : soon) :
  state_height (chain w) <= state_height (chain w') ->
  (forall e, ctx_Err w (soon_ctx b) = Some e ->
             ctx_Err w' (soon_ctx b) = Some e) ->
  result_sound w b -> result_sound w' b.
Proof.
  intros Hle Hctx Hs r Hr.
  destruct (Hs r Hr) as [[-> ?] | [-> | (e & -> & He)]].
  - left. split; [reflexivity | lia].
  - right. left. reflexivity.
  - right. right. eauto.
Qed.

Lemma result_sound_snoc w (b : soon) pc (v : option error) :
  result_sound w b ->
  ((v = None /\ soon_height b <= state_height (chain w))
   \/ v = Some ErrTheDistantFuture
   \/ (exists e, v = Some (Err e) /\ ctx_Err w (soon_ctx b) = Some e)) ->
  result_sound w (mkSoon (soon_ctx b) (soon_height b) pc (soon_ch b ++ [v])).
Proof.
  intros Hs Hv r Hr. cbn in Hr |- *.
  apply elem_of_app in Hr as [Hr | Hr]; [exact (Hs r Hr) |].
  apply list_elem_of_singleton in Hr as ->. exact Hv.
Qed.

(** A transition keeps the results of a [BlockSoonWaiter] goroutine sound. *)
Lemma step_result_sound l w w' g (b : soon) :
  world_ok w ->
  step l w = Some w' ->
  goroutines w !! g = Some (GoBlockSoonWaiter b) ->
  result_sound w b ->
  exists b',
    goroutines w' !! g = Some (GoBlockSoonWaiter b')
    /\ soon_ctx b' = soon_ctx b
    /\ soon_height b' = soon_height b
    /\ result_sound w' b'.
Proof.
  intros Hok Hstep Hg Hs.
  apply lookup_lt_Some in Hg as Hlt.
  destruct (step_soon l w w' g b Hstep Hg)
    as [Hsame | [[-> Hat] | (k & v & -> & _ & _)]].
  - exists b. repeat (split; [assumption || reflexivity |]).
    eapply result_sound_mono; [| | exact Hs].
    + apply (step_Height l). assumption.
    + intros e. apply (step_ctx_Err l). assumption.
  - cbn in Hstep. rewrite Hg in Hstep.
    apply run_BlockSoonWaiter_Some in Hstep
      as (_ & [(_ & ch & Hch & ->) | (_ & ->)]).
    + apply chan_send_Some in Hch as [-> _].
      eexists. split; [apply list_lookup_insert_eq; exact Hlt |].
      cbn. repeat (split; [reflexivity |]).
      apply (result_sound_snoc w b SoonDone); [exact Hs | auto].
    + eexists. split.
      { rewrite goroutines_put. apply list_lookup_insert_eq.
        unfold BlockWaiter. rewrite goroutines_spawn, length_app. lia. }
      cbn. repeat (split; [reflexivity |]).
      intros r Hr. exact (Hs r Hr).
  - cbn in Hstep. rewrite Hg in Hstep.
    assert (soon_ok w b) as [_ Hb] by exact (ok_goroutines w Hok g _ Hg).
    apply select_BlockSoonWaiter_Some in Hstep as (inner & Hat & Hk).
    rewrite Hat in Hb. destruct Hb as (_ & i0 & Hi0 & Hh0).
    destruct k.
    + destruct Hk as (i & v0 & rest & ch & Hi & Hv & Hch & ->).
      apply chan_send_Some in Hch as [-> _].
      assert (i0 = i) as -> by congruence.
      assert (waiter_ok w i) as [_ Hwi]
        by exact (ok_goroutines w Hok inner _ Hi).
      assert (waiter_height i <= state_height (chain w)) as Hreached.
      { destruct (waiter_at i);
          [rewrite Hv in Hwi; discriminate
          | rewrite Hv in Hwi; discriminate | tauto]. }
      eexists. split.
      { rewrite goroutines_put. apply list_lookup_insert_eq.
        rewrite goroutines_put, length_insert. exact Hlt. }
      cbn. repeat (split; [reflexivity |]).
      apply (result_sound_snoc w b SoonDone); [exact Hs |].
      left. split; [reflexivity | lia].
    + destruct Hk as (e & ch & He & Hch & ->).
      apply chan_send_Some in Hch as [-> _].
      eexists. split; [apply list_lookup_insert_eq; exact Hlt |].
      cbn. repeat (split; [reflexivity |]).
      apply (result_sound_snoc w b SoonDone); [exact Hs |].
      right. right. eauto.
Qed.

Lemma exec_result_sound (ls : list label) w w' g (b : soon) :
  reachable w ->
  exec ls w = Some w' ->
  goroutines w !! g = Some (GoBlockSoonWaiter b) ->
  result_sound w b ->
  exists b',
    goroutines w' !! g = Some (GoBlockSoonWaiter b')
    /\ soon_ctx b' = soon_ctx b
    /\ soon_height b' = soon_height b
    /\ result_sound w' b'.
Proof.
  revert w b. induction ls as [| l ls IH]; intros w b Hr Hex Hg Hs;
    cbn in Hex.
  - injection Hex as <-. exists b. auto.
  - destruct (label_ok l) eqn:Hl; [| discriminate].
    apply bind_Some in Hex as (w1 & Hstep & Hex).
    destruct (step_result_sound l w w1 g b (reachable_world_ok w Hr)
                Hstep Hg Hs) as (b1 & Hg1 & Hc1 & Hh1 & Hs1).
    assert (reachable w1) as Hr1 by (eapply reachable_step; eassumption).
    destruct (IH w1 b1 Hr1 Hex Hg1 Hs1) as (b' & ? & ? & ? & ?).
    exists b'. split; [assumption |]. split; [congruence |].
    split; [congruence | assumption].
Qed.

(** X10. What a result of [BlockSoonWaiter] tells.  After a call of
    [BlockSoonWaiter(ctx, height)], however the program runs, its result
    channel holds at most one value, and a value it holds is [nil] only if
    [Height()] has reached [height], or is [ErrTheDistantFuture], or is the
    error of [ctx], which is then done with that error. *)
Theorem BlockSoonWaiter_results_sound w0 ctx height (tr : list label) w :
  reachable w0 ->
  exec (CallBlockSoonWaiter ctx height :: tr) w0 = Some w ->
  exists b,
    goroutines w !! length (goroutines w0) = Some (GoBlockSoonWaiter b)
    /\ soon_ctx b = ctx
    /\ soon_height b = height
    /\ (length (soon_ch b) <= 1)%nat
    /\ result_sound w b.
Proof.
  intros Hr Hex.
  pose proof (exec_reachable _ _ _ Hr Hex) as Hrw.
  cbn [exec] in Hex. destruct (label_ok _) eqn:Hl; [| discriminate].
  apply bind_Some in Hex as (w1 & [= <-] & Hex).
  edestruct (exec_result_sound tr (BlockSoonWaiter ctx height w0) w
               (length (goroutines w0)) (mkSoon ctx height SoonCheck []))
    as (b & Hg & Hc & Hh & Hs).
  - eapply reachable_step; [exact Hr | exact Hl | reflexivity].
  - exact Hex.
  - apply list_lookup_middle. reflexivity.
  - intros r Hin. cbn in Hin. inversion Hin.
  - exists b. repeat (split; [assumption |]). split; [| assumption].
    assert (soon_ok w b) as [_ Hb]
      by exact (ok_goroutines w (reachable_world_ok w Hrw) _ _ Hg).
    destruct (soon_at b) as [| inner |].
    + rewrite Hb. cbn. lia.
    + destruct Hb as [-> _]. cbn. lia.
    + destruct Hb as [r ->]. cbn. lia.
Qed.


(** X12. Cancellation leaves the waiter behind.  When the [select] of
    [BlockSoonWaiter] takes the case of [ctx.Done()], the [BlockWaiter]
    goroutine it started is left as it was, chain and condition too: with
    the height still short of the target it has not signalled, it cannot
    move while parked, and a turn it gets parks it. *)
Theorem cancelled_wait_leaves_its_waiter w g (b : soon) inner w' :
  reachable w ->
  goroutines w !! g = Some (GoBlockSoonWaiter b) ->
  soon_at b = SoonSelect inner ->
  step (Select g CaseDone) w = Some w' ->
  chain w' = chain w
  /\ goroutines w' !! inner = goroutines w !! inner
  /\ exists i,
       goroutines w' !! inner = Some (GoBlockWaiter i)
       /\ waiter_height i = soon_height b
       /\ (Height (chain w') < soon_height b ->
           ~ signalled i
           /\ forall w'', step (Run inner) w' = Some w'' ->
                inner ∈ cond_parked (state_cond (chain w''))).
Proof.
  intros Hr Hg Hat Hstep.
  pose proof (reachable_world_ok w Hr) as Hok.
  assert (soon_ok w b) as [_ Hb] by exact (ok_goroutines w Hok g _ Hg).
  rewrite Hat in Hb. destruct Hb as (_ & i & Hi & Hh).
  cbn in Hstep. rewrite Hg in Hstep.
  apply select_BlockSoonWaiter_Some in Hstep as (inner' & _ & e & ch & _ & _ & ->).
  assert (g <> inner) as Hne by congruence.
  assert (goroutines
            (put g (GoBlockSoonWaiter
                      (mkSoon (soon_ctx b) (soon_height b) SoonDone ch)) w)
          !! inner = goroutines w !! inner) as Hsame
    by (rewrite goroutines_put; apply list_lookup_insert_ne; assumption).
  split; [reflexivity |]. split; [exact Hsame |].
  exists i. split; [rewrite Hsame; exact Hi |]. split; [exact Hh |].
  rewrite chain_put. unfold Height. intros Hshort.
  assert (waiter_ok w i) as [_ Hwi] by exact (ok_goroutines w Hok inner _ Hi).
  split.
  - unfold signalled. intros Hd. rewrite Hd in Hwi. lia.
  - intros w'' Hrun. unfold step in Hrun. rewrite Hsame, Hi in Hrun.
    apply run_BlockWaiter_Some in Hrun
      as (_ & _ & [[_ ->] | (Hle & _)]).
    + cbn. apply list_elem_of_here.
    + rewrite chain_put in Hle. lia.
Qed.

(** X13. Below the overflow edge the [slop] test is exact at its bound.
    When [Height() + 3] fits a [uint64] and the target is at most
    [Height() + 3] (the bound included), the goroutine of [BlockSoonWaiter]
    sends nothing in its first turn: it starts a [BlockWaiter] goroutine for
    that same target and enters its [select] on it. *)
Theorem BlockSoonWaiter_within_slop_waits w g (b : soon) :
  reachable w ->
  goroutines w !! g = Some (GoBlockSoonWaiter b) ->
  soon_at b = SoonCheck ->
  Height (chain w) + 3 <= uint64_max ->
  soon_height b <= Height (chain w) + 3 ->
  let inner := length (goroutines w) in
  let w' := put g (GoBlockSoonWaiter
                     (mkSoon (soon_ctx b) (soon_height b) (SoonSelect inner) []))
                (BlockWaiter (soon_height b) w) in
  step (Run g) w = Some w'
  /\ goroutines w' !! inner
     = Some (GoBlockWaiter (mkWaiter (soon_height b) WaiterLock []))
  /\ chain w' = chain w.
Proof.
  intros Hr Hg Hat Hfit Hle inner w'.
  pose proof (reachable_world_ok w Hr) as Hok.
  assert (soon_ok w b) as [_ Hb] by exact (ok_goroutines w Hok g _ Hg).
  rewrite Hat in Hb.
  assert (add64 (Height (chain w)) slop = Height (chain w) + 3) as Hadd.
  { pose proof (ok_height w Hok) as [Hlo _]. unfold Height in *.
    unfold add64, slop. apply Z.mod_small.
    unfold uint64_max in Hfit. lia. }
  split; [| split].
  - unfold step. rewrite Hg. unfold run_BlockSoonWaiter. rewrite Hat, Hadd.
    destruct (Z.gtb_spec (soon_height b) (Height (chain w) + 3)); [lia |].
    unfold w', inner. rewrite Hb. reflexivity.
  - unfold w'. rewrite goroutines_put.
    apply lookup_lt_Some in Hg.
    rewrite list_lookup_insert_ne by (unfold inner; lia).
    apply list_lookup_middle. reflexivity.
  - reflexivity.
Qed.









End Coordination.

(** ** The further theorems at work *)


Lemma world_cancelled_12_reachable : reachable world_cancelled_12.
Proof.
  eapply after_reachable;
    [apply world_at_reachable, is_uint64_10 | reflexivity].
Qed.



(** From height 10 with the snapshot of height 7: heights 12, 20 and 9
    leave height 20. *)
Lemma Height_is_max_of_updates_witness :
  snapshot_behind chain_10_7
  /\ Height (apply_updates
               [SetState snapshot_12; SetHeight 20; SetState snapshot_9]
               chain_10_7) = 20.
Proof.
  assert (snapshot_behind chain_10_7) as Hinv by (vm_compute; discriminate).
  split; [exact Hinv |].
  exact (Height_is_max_of_updates
           [SetState snapshot_12; SetHeight 20; SetState snapshot_9]
           chain_10_7 Hinv).
Defined.

(** From height 10, heights 20 and 15 in either order. *)
Lemma heights_independent_of_order_witness :
  snapshot_behind (chain (world_at 10))
  /\ Permutation [SetHeight 20; SetHeight 15] [SetHeight 15; SetHeight 20]
  /\ Height (apply_updates [SetHeight 20; SetHeight 15] (chain (world_at 10)))
     = Height (apply_updates [SetHeight 15; SetHeight 20]
                             (chain (world_at 10))).
Proof.
  assert (snapshot_behind (chain (world_at 10))) as Hinv
    by (vm_compute; discriminate).
  assert (Permutation [SetHeight 20; SetHeight 15]
                      [SetHeight 15; SetHeight 20]) as Hperm
    by apply perm_swap.
  split; [exact Hinv |]. split; [exact Hperm |].
  exact (proj1 (heights_independent_of_order _ _ (chain (world_at 10))
                  Hinv Hperm)).
Defined.

(** The snapshots of heights 9 and 12 over the one of height 7. *)
Lemma higher_snapshot_wins_witness :
  state.Height snapshot_9 < state.Height snapshot_12
  /\ state.Height (State chain_10_7) < state.Height snapshot_12
  /\ State (setState snapshot_12 (setState snapshot_9 chain_10_7))
     = snapshot_12
  /\ State (setState snapshot_9 (setState snapshot_12 chain_10_7))
     = snapshot_12.
Proof.
  assert (state.Height snapshot_9 < state.Height snapshot_12) as Hab
    by reflexivity.
  assert (state.Height (State chain_10_7) < state.Height snapshot_12) as Hcb
    by reflexivity.
  split; [exact Hab |]. split; [exact Hcb |].
  destruct (higher_snapshot_wins snapshot_9 snapshot_12 chain_10_7 Hab Hcb)
    as (H1 & H2 & _).
  split; [exact H1 | exact H2].
Defined.

(** The turn in which the wait for height 15 signals moves no height. *)
Lemma only_writers_move_the_tracker_witness :
  step (Run 0%nat) world_wake_15 = Some (after [Run 0%nat] world_wake_15)
  /\ writer_label (Run 0%nat) = false
  /\ Height (chain (after [Run 0%nat] world_wake_15))
     = Height (chain world_wake_15).
Proof.
  assert (step (Run 0%nat) world_wake_15
          = Some (after [Run 0%nat] world_wake_15)) as Hstep by reflexivity.
  split; [exact Hstep |]. split; [reflexivity |].
  exact (proj1 (only_writers_move_the_tracker (Run 0%nat) world_wake_15
                  (after [Run 0%nat] world_wake_15) Hstep eq_refl)).
Defined.


(** The context of [NewChain] cancelled, the goroutine of the heights
    leaves. *)
Lemma workers_live_with_context_witness :
  NewChain [None; None] 0 genesis (store_at 10) true = inl (world_at 10)
  /\ exec [Cancel 0 Canceled; HeightsDone] (world_at 10)
     = Some (after [Cancel 0 Canceled; HeightsDone] (world_at 10))
  /\ (snapshots_worker (after [Cancel 0 Canceled; HeightsDone] (world_at 10))
      = Some 0%nat
      \/ (snapshots_worker
            (after [Cancel 0 Canceled; HeightsDone] (world_at 10)) = None
          /\ is_Some (ctx_Err
                        (after [Cancel 0 Canceled; HeightsDone] (world_at 10))
                        0))).
Proof.
  assert (exec [Cancel 0 Canceled; HeightsDone] (world_at 10)
          = Some (after [Cancel 0 Canceled; HeightsDone] (world_at 10)))
    as Hex by reflexivity.
  split; [exact (world_at_NewChain 10) |]. split; [exact Hex |].
  exact (proj2 (proj2 (workers_live_with_context [None; None] 0%nat genesis
                         (store_at 10) true (world_at 10)
                         [Cancel 0 Canceled; HeightsDone] _
                         (world_at_NewChain 10) Hex))).
Defined.

(** A bounded wait for height 12 from height 10 that ends with [nil]. *)
Lemma BlockSoonWaiter_results_sound_witness :
  let tr := [Run 0%nat; CallSetHeight 12; Run 1%nat;
             Select 0%nat CaseBlockWaiter] in
  reachable (world_at 10)
  /\ exec (CallBlockSoonWaiter 1 12 :: tr) (world_at 10)
     = Some (after (CallBlockSoonWaiter 1 12 :: tr) (world_at 10))
  /\ exists b,
       goroutines (after (CallBlockSoonWaiter 1 12 :: tr) (world_at 10))
         !! length (goroutines (world_at 10))
       = Some (GoBlockSoonWaiter b)
       /\ result_sound (after (CallBlockSoonWaiter 1 12 :: tr) (world_at 10)) b.
Proof.
  intros tr.
  assert (reachable (world_at 10)) as Hr
    by (apply world_at_reachable, is_uint64_10).
  assert (exec (CallBlockSoonWaiter 1 12 :: tr) (world_at 10)
          = Some (after (CallBlockSoonWaiter 1 12 :: tr) (world_at 10)))
    as Hex by reflexivity.
  split; [exact Hr |]. split; [exact Hex |].
  destruct (BlockSoonWaiter_results_sound (world_at 10) 1%nat 12 tr _ Hr Hex)
    as (b & Hg & _ & _ & _ & Hs).
  exists b. split; [exact Hg | exact Hs].
Defined.


(** The wait for height 12 cancelled at height 10: its [BlockWaiter]
    goroutine is still there. *)
Lemma cancelled_wait_leaves_its_waiter_witness :
  reachable world_cancelled_12
  /\ step (Select 0%nat CaseDone) world_cancelled_12
     = Some (after [Select 0%nat CaseDone] world_cancelled_12)
  /\ goroutines (after [Select 0%nat CaseDone] world_cancelled_12) !! 1%nat
     = goroutines world_cancelled_12 !! 1%nat.
Proof.
  assert (step (Select 0%nat CaseDone) world_cancelled_12
          = Some (after [Select 0%nat CaseDone] world_cancelled_12)) as Hstep
    by reflexivity.
  split; [exact world_cancelled_12_reachable |]. split; [exact Hstep |].
  exact (proj1 (proj2 (cancelled_wait_leaves_its_waiter world_cancelled_12
                         0%nat (mkSoon 1 12 (SoonSelect 1) []) 1%nat _
                         world_cancelled_12_reachable eq_refl eq_refl Hstep))).
Defined.

(** Height 10, target 12: the goroutine starts its [BlockWaiter] goroutine
    and waits. *)
Lemma BlockSoonWaiter_within_slop_waits_witness :
  reachable world_soon_12
  /\ Height (chain world_soon_12) + 3 <= uint64_max
  /\ 12 <= Height (chain world_soon_12) + 3
  /\ step (Run 0%nat) world_soon_12
     = Some (put 0%nat
                 (GoBlockSoonWaiter (mkSoon 1 12 (SoonSelect 1) []))
                 (BlockWaiter 12 world_soon_12)).
Proof.
  assert (Height (chain world_soon_12) + 3 <= uint64_max) as Hfit
    by (vm_compute; discriminate).
  assert (12 <= Height (chain world_soon_12) + 3) as Hle
    by (vm_compute; discriminate).
  split; [exact world_soon_12_reachable |]. split; [exact Hfit |].
  split; [exact Hle |].
  exact (proj1 (BlockSoonWaiter_within_slop_waits world_soon_12 0%nat
                  (mkSoon 1 12 SoonCheck []) world_soon_12_reachable
                  eq_refl eq_refl Hfit Hle)).
Defined.

